(** * Baby Keyboard Smashing Game: the animated-entity engine

    A shallow embedding of the entity engine of the game:
    - [Utils]        : CONFIG, the random helpers and easing curves and
                       ObjectPool (src/unnamed/part_002, i.e. utils.js);
    - [Shapes]       : Shape and ShapeManager (src/src/js/shapes.js);
    - [Particles]    : Particle and ParticleSystem (src/src/js/particles.js);
    - [Sounds]       : SoundManager.playSound (src/src/js/sounds.js);
    - [GameLoop]     : the frame loop of BabyKeyboardGame (src/src/js/main.js).

    JS numbers are modelled as rationals [Q]; the values involved here
    (timestamps, pixel positions, configuration constants) are exact.
    [Math.random()] is a stream of draws ([list Q]) threaded as state,
    [performance.now()] is a clock value held in the manager state, and
    [Math.sin]/[Math.PI] are section variables.  Objects that the code
    shares by reference (pooled shapes and particles) live in a heap
    indexed by object identities ([nat]); the pool's free list and the
    managers' live arrays hold identities.  A ghost log records every
    [get]/[release] of a pool. *)

From Stdlib Require Import List QArith Qround Bool String Lia ZArith.
Import ListNotations.

(** ** A small state monad *)

Definition St (S X : Type) : Type := S -> X * S.

Definition ret {S X} (x : X) : St S X := fun s => (x, s).

Definition bind {S X Y} (m : St S X) (k : X -> St S Y) : St S Y :=
  fun s => let (x, s') := m s in k x s'.

Declare Scope st_scope.
Notation "x <- m ;; k" := (bind m (fun x => k))
  (at level 61, m at next level, right associativity) : st_scope.
Notation "m ;;; k" := (bind m (fun _ => k))
  (at level 61, right associativity) : st_scope.
Open Scope st_scope.

Fixpoint st_repeat {S} (n : nat) (m : St S unit) : St S unit :=
  match n with
  | O => ret tt
  | S n' => m ;;; st_repeat n' m
  end.

(** [Math.random()]: the next draw of the random stream. *)
Definition Rand (X : Type) : Type := St (list Q) X.

Definition Math_random : Rand Q :=
  fun l => match l with
           | [] => (0, [])
           | r :: l' => (r, l')
           end.

(** ** JS number helpers on [Q] *)

Definition Qltb (a b : Q) : bool := negb (Qle_bool b a).
Definition Qleb (a b : Q) : bool := Qle_bool a b.

Definition Math_min (a b : Q) : Q := if Qle_bool a b then a else b.
Definition Math_max (a b : Q) : Q := if Qle_bool b a then a else b.

Definition Math_floor (q : Q) : Z := Qfloor q.

(** [a % b] on JS numbers: the remainder of truncated division. *)
Definition Qtrunc (q : Q) : Z :=
  if Qle_bool 0 q then Qfloor q else (- Qfloor (- q))%Z.

Definition js_mod (a b : Q) : Q := a - b * inject_Z (Qtrunc (a / b)).

(** ** Heaps of objects shared by reference *)

Definition upd {A} (h : nat -> A) (i : nat) (v : A) : nat -> A :=
  fun j => if Nat.eqb j i then v else h j.

Module Utils.

(** CONFIG (utils.js) *)
Inductive shape_type := circle | square | triangle | star | heart.

Definition CONFIG_shapes_types : list shape_type :=
  [circle; square; triangle; star; heart].
Definition CONFIG_shapes_minSize : Q := 40.
Definition CONFIG_shapes_maxSize : Q := 120.
Definition CONFIG_shapes_animationDuration : Q := 3000.
Definition CONFIG_shapes_fadeOutDuration : Q := 1500.
Definition CONFIG_shapes_maxActiveShapes : nat := 15.

Definition CONFIG_particles_minSize : Q := 3.
Definition CONFIG_particles_maxSize : Q := 8.
Definition CONFIG_particles_maxActiveParticles : nat := 100.

Definition CONFIG_audio_maxConcurrentSounds : nat := 5.

Definition BABY_COLORS : list string :=
  ["#FF6B6B"; "#4ECDC4"; "#45B7D1"; "#96CEB4"; "#FFEAA7"; "#DDA0DD";
   "#FFB6C1"; "#98FB98"; "#FFA07A"; "#87CEEB"; "#F0E68C"; "#DEB887"]%string.

(** randomBetween(min, max) = Math.random() * (max - min) + min *)
Definition randomBetween (min max : Q) : Rand Q :=
  r <- Math_random ;; ret (r * (max - min) + min).

(** randomIntBetween(min, max) = Math.floor(Math.random() * (max - min + 1)) + min,
    for integer bounds: its two callers pass the integer literals (5, 10)
    and (1, 3). *)
Definition randomIntBetween (min max : Z) : Rand Z :=
  r <- Math_random ;;
  ret (Math_floor (r * inject_Z (max - min + 1)) + min)%Z.

(** arr[i] for an index computed by the code; [d] stands for [undefined]. *)
Definition js_index {X} (l : list X) (i : Z) (d : X) : X :=
  if (i <? 0)%Z then d else nth (Z.to_nat i) l d.

Definition getRandomColor : Rand string :=
  r <- Math_random ;;
  ret (js_index BABY_COLORS
         (Math_floor (r * inject_Z (Z.of_nat (List.length BABY_COLORS)))) "#FF6B6B"%string).

Record position := { pos_x : Q; pos_y : Q }.

Definition getRandomPosition (canvasWidth canvasHeight padding : Q) : Rand position :=
  x <- randomBetween padding (canvasWidth - padding) ;;
  y <- randomBetween padding (canvasHeight - padding) ;;
  ret {| pos_x := x; pos_y := y |}.

Definition easeOut (t : Q) : Q := 1 - (1 - t) * (1 - t) * (1 - t).

Definition easeBounce (t : Q) : Q :=
  if Qltb t (1 / (11 # 4)) then (121 # 16) * t * t
  else if Qltb t (2 / (11 # 4)) then
    let t' := t - (3 # 2) / (11 # 4) in (121 # 16) * t' * t' + (3 # 4)
  else if Qltb t ((5 # 2) / (11 # 4)) then
    let t' := t - (9 # 4) / (11 # 4) in (121 # 16) * t' * t' + (15 # 16)
  else
    let t' := t - (21 # 8) / (11 # 4) in (121 # 16) * t' * t' + (63 # 64).

(** lerp(start, end, factor) *)
Definition lerp (start end_ factor : Q) : Q := start + (end_ - start) * factor.

(** clamp(value, min, max) = Math.min(Math.max(value, min), max) *)
Definition clamp (value min max : Q) : Q := Math_min (Math_max value min) max.

(** Math.round(x): the nearest integer, halves rounded towards +infinity. *)
Definition Math_round (q : Q) : Z := Qfloor (q + (1 # 2)).

(** String(n) for a non-negative integer [n]: its decimal digits. *)
Fixpoint nat_digits (fuel n : nat) (acc : string) : string :=
  match fuel with
  | O => acc
  | S f =>
      let acc' := String (Ascii.ascii_of_nat (48 + n mod 10)) acc in
      if n <? 10 then acc' else nat_digits f (n / 10) acc'
  end.

Definition nat_to_string (n : nat) : string := nat_digits (S n) n EmptyString.

(** `${n}` for an integer-valued number [n] ([-0] prints as [0]). *)
Definition Z_to_string (z : Z) : string :=
  if (z <? 0)%Z then String.append "-" (nat_to_string (Z.to_nat (- z)))
  else nat_to_string (Z.to_nat z).

(** The arrow function hue2rgb(p, q, t) of hslToRgb *)
Definition hue2rgb (p q t : Q) : Q :=
  let t1 := if Qltb t 0 then t + 1 else t in
  let t2 := if Qltb 1 t1 then t1 - 1 else t1 in
  if Qltb t2 (1 # 6) then p + (q - p) * 6 * t2
  else if Qltb t2 (1 # 2) then q
  else if Qltb t2 (2 # 3) then p + (q - p) * ((2 # 3) - t2) * 6
  else p.

(** The three numbers Math.round(r * 255), Math.round(g * 255),
    Math.round(b * 255) that hslToRgb(h, s, l) prints. *)
Definition hslToRgb_channels (h0 s0 l0 : Q) : Z * Z * Z :=
  let h := h0 / 360 in
  let s := s0 / 100 in
  let l := l0 / 100 in
  let '(r, g, b) :=
    if Qeq_bool s 0 then (l, l, l)
    else
      let q := if Qltb l (1 # 2) then l * (1 + s) else l + s - l * s in
      let p := 2 * l - q in
      (hue2rgb p q (h + (1 # 3)), hue2rgb p q h, hue2rgb p q (h - (1 # 3))) in
  (Math_round (r * 255), Math_round (g * 255), Math_round (b * 255)).

(** hslToRgb(h, s, l) *)
Definition hslToRgb (h s l : Q) : string :=
  let '(r, g, b) := hslToRgb_channels h s l in
  ("rgb(" ++ Z_to_string r ++ ", " ++ Z_to_string g ++ ", " ++ Z_to_string b ++ ")")%string.

(** *** PerformanceMonitor *)

(** CONFIG.performance.maxFrameTime *)
Definition CONFIG_performance_maxFrameTime : Q := 1667 # 100.

Record PerformanceMonitor := mkPerformanceMonitor {
  frameCount : nat; lastTime : Q; fps : Z; frameTime : Q; updateInterval : Q
}.

(** new PerformanceMonitor(), at performance.now() = [now] *)
Definition new_PerformanceMonitor (now : Q) : PerformanceMonitor :=
  mkPerformanceMonitor 0 now 0 0 1000.

(** update(), at performance.now() = [now] *)
Definition pm_update (now : Q) (m : PerformanceMonitor) : PerformanceMonitor :=
  let deltaTime := now - lastTime m in
  let fc := S (frameCount m) in
  if Qle_bool (updateInterval m) deltaTime then
    mkPerformanceMonitor 0 now (Math_round (inject_Z (Z.of_nat fc) * 1000 / deltaTime))
      deltaTime (updateInterval m)
  else mkPerformanceMonitor fc (lastTime m) (fps m) deltaTime (updateInterval m).

(** getFPS() *)
Definition getFPS (m : PerformanceMonitor) : Z := fps m.

(** isPerformanceGood() *)
Definition isPerformanceGood (m : PerformanceMonitor) : bool :=
  (45 <=? fps m)%Z && Qle_bool (frameTime m) (CONFIG_performance_maxFrameTime * (12 # 10)).

(** *** ObjectPool *)

Inductive pool_event := EvGet (o : nat) | EvCreate (o : nat) | EvRelease (o : nat).

Section ObjectPool.
Variable A : Type.

(** [heap] holds the objects, [next] is the first unused identity, [pool]
    is the free list (its top is the end of the list, as with JS push/pop),
    [log] is ghost. *)
Record ObjectPool := {
  heap : nat -> A;
  next : nat;
  pool : list nat;
  createFn : A;
  resetFn : option (A -> A);
  log : list pool_event
}.

Definition with_pool (p : ObjectPool) (h : nat -> A) (n : nat) (fl : list nat)
    (lg : list pool_event) : ObjectPool :=
  {| heap := h; next := n; pool := fl; createFn := createFn p;
     resetFn := resetFn p; log := lg |}.

(** this.createFn(): a new object, at a fresh identity *)
Definition create (p : ObjectPool) : nat * ObjectPool :=
  (next p, with_pool p (upd (heap p) (next p) (createFn p)) (S (next p)) (pool p)
             (log p ++ [EvCreate (next p)])).

Definition new_ObjectPool (c : A) (r : option (A -> A)) (initialSize : nat) : ObjectPool :=
  Nat.iter initialSize
    (fun p => let (o, p') := create p in
              with_pool p' (heap p') (next p') (pool p' ++ [o]) (log p'))
    {| heap := fun _ => c; next := 0; pool := []; createFn := c; resetFn := r;
       log := [] |}.

Definition get (p : ObjectPool) : nat * ObjectPool :=
  match rev (pool p) with
  | o :: rest => (o, with_pool p (heap p) (next p) (rev rest) (log p ++ [EvGet o]))
  | [] => create p
  end.

Definition release (o : nat) (p : ObjectPool) : ObjectPool :=
  let h := match resetFn p with
           | Some r => upd (heap p) o (r (heap p o))
           | None => heap p
           end in
  with_pool p h (next p) (pool p ++ [o]) (log p ++ [EvRelease o]).

Definition pool_clear (p : ObjectPool) : ObjectPool :=
  with_pool p (heap p) (next p) [] (log p).

End ObjectPool.

Arguments heap {A}. Arguments next {A}. Arguments pool {A}.
Arguments createFn {A}. Arguments resetFn {A}. Arguments log {A}.
Arguments with_pool {A}. Arguments create {A}. Arguments new_ObjectPool {A}.
Arguments get {A}. Arguments release {A}. Arguments pool_clear {A}.

(** The identities released, in order, in a segment of the log. *)
Definition released (l : list pool_event) : list nat :=
  flat_map (fun e => match e with EvRelease o => [o] | _ => [] end) l.

(** Array.prototype.filter whose callback steps the object and releases it
    to the pool when the step reports it dead (ShapeManager.update,
    ParticleSystem.update). *)
Fixpoint filter_release {A} (step : A -> A * bool) (l : list nat) (p : ObjectPool A)
    : list nat * ObjectPool A :=
  match l with
  | [] => ([], p)
  | o :: l' =>
      let (a', alive) := step (heap p o) in
      let p1 := with_pool p (upd (heap p) o a') (next p) (pool p) (log p) in
      let p2 := if alive then p1 else release o p1 in
      let (kept, p3) := filter_release step l' p2 in
      (if alive then o :: kept else kept, p3)
  end.

(** forEach(o => pool.release(o)) (ShapeManager.clear, ParticleSystem.clear) *)
Fixpoint release_all {A} (l : list nat) (p : ObjectPool A) : ObjectPool A :=
  match l with
  | [] => p
  | o :: l' => release_all l' (release o p)
  end.

(** Object initialisation through the reference: heap[o] := v *)
Definition set_obj {A} (o : nat) (v : A) (p : ObjectPool A) : ObjectPool A :=
  with_pool p (upd (heap p) o v) (next p) (pool p) (log p).

End Utils.

Module Shapes.
Import Utils.

(** ASCII case mapping, for String.prototype.toLowerCase/toUpperCase. *)
Definition ascii_lower (c : Ascii.ascii) : Ascii.ascii :=
  let n := Ascii.nat_of_ascii c in
  if (65 <=? n) && (n <=? 90) then Ascii.ascii_of_nat (n + 32) else c.
Definition ascii_upper (c : Ascii.ascii) : Ascii.ascii :=
  let n := Ascii.nat_of_ascii c in
  if (97 <=? n) && (n <=? 122) then Ascii.ascii_of_nat (n - 32) else c.

Fixpoint toLowerCase (s : string) : string :=
  match s with EmptyString => EmptyString | String c s' => String (ascii_lower c) (toLowerCase s') end.
Fixpoint toUpperCase (s : string) : string :=
  match s with EmptyString => EmptyString | String c s' => String (ascii_upper c) (toUpperCase s') end.

(** One sparkle of a 'sparkle' shape. *)
Record Sparkle := {
  sparkle_x : Q; sparkle_y : Q; sparkle_size : Q; sparkle_rotation : Q; sparkle_speed : Q
}.

(** The state of a Shape object.  The fields scaleAnimation, initialScale,
    targetScale and trails are set by reset() and never read; they are left
    out.  [type] is [None] for an [undefined] type. *)
Record Shape := mkShape {
  x : Q; y : Q; size : Q; maxSize : Q; color : string; type : option shape_type;
  rotation : Q; rotationSpeed : Q; createdAt : Q; lifespan : Q; fadeOutStart : Q;
  isActive : bool; effect : string; bounceHeight : Q; bounceSpeed : Q;
  pulsePeriod : Q; sparkles : list Sparkle
}.

Definition set_y s v := mkShape (x s) v (size s) (maxSize s) (color s) (type s) (rotation s)
  (rotationSpeed s) (createdAt s) (lifespan s) (fadeOutStart s) (isActive s) (effect s)
  (bounceHeight s) (bounceSpeed s) (pulsePeriod s) (sparkles s).
Definition set_size s v := mkShape (x s) (y s) v (maxSize s) (color s) (type s) (rotation s)
  (rotationSpeed s) (createdAt s) (lifespan s) (fadeOutStart s) (isActive s) (effect s)
  (bounceHeight s) (bounceSpeed s) (pulsePeriod s) (sparkles s).
Definition set_rotation s v := mkShape (x s) (y s) (size s) (maxSize s) (color s) (type s) v
  (rotationSpeed s) (createdAt s) (lifespan s) (fadeOutStart s) (isActive s) (effect s)
  (bounceHeight s) (bounceSpeed s) (pulsePeriod s) (sparkles s).
Definition set_isActive s v := mkShape (x s) (y s) (size s) (maxSize s) (color s) (type s)
  (rotation s) (rotationSpeed s) (createdAt s) (lifespan s) (fadeOutStart s) v (effect s)
  (bounceHeight s) (bounceSpeed s) (pulsePeriod s) (sparkles s).
Definition set_sparkles s v := mkShape (x s) (y s) (size s) (maxSize s) (color s) (type s)
  (rotation s) (rotationSpeed s) (createdAt s) (lifespan s) (fadeOutStart s) (isActive s)
  (effect s) (bounceHeight s) (bounceSpeed s) (pulsePeriod s) v.
(** lifespan, maxSize, rotationSpeed, pulsePeriod, bounceHeight, bounceSpeed
    and fadeOutStart, the fields initEffect writes *)
Definition set_effect_fields s ls ms rs pp bh bs fo := mkShape (x s) (y s) (size s) ms
  (color s) (type s) (rotation s) rs (createdAt s) ls fo (isActive s) (effect s) bh bs pp
  (sparkles s).

(** reset() *)
Definition reset (_ : Shape) : Shape :=
  mkShape 0 0 0 0 "#FF6B6B" (Some circle) 0 0 0 CONFIG_shapes_animationDuration
    (CONFIG_shapes_animationDuration - CONFIG_shapes_fadeOutDuration) false "normal"
    0 0 0 [].

(** new Shape() *)
Definition new_Shape : Shape := reset (mkShape 0 0 0 0 "" None 0 0 0 0 0 false "" 0 0 0 []).

Section ShapeCode.
Variable Math_PI : Q.
Variable Math_sin : Q -> Q.

Definition initSparkles (s : Shape) : Rand Shape :=
  sparkleCount <- randomIntBetween 5 10 ;;
  fun r =>
    let fix go (n : nat) (acc : list Sparkle) (r : list Q) : list Sparkle * list Q :=
      match n with
      | O => (acc, r)
      | S n' =>
          let (sx, r1) := randomBetween (- maxSize s * (1#2)) (maxSize s * (1#2)) r in
          let (sy, r2) := randomBetween (- maxSize s * (1#2)) (maxSize s * (1#2)) r1 in
          let (sz, r3) := randomBetween 2 6 r2 in
          let (sr, r4) := randomBetween 0 (Math_PI * 2) r3 in
          let (sp, r5) := randomBetween (5#1000) (15#1000) r4 in
          go n' (acc ++ [{| sparkle_x := sx; sparkle_y := sy; sparkle_size := sz;
                            sparkle_rotation := sr; sparkle_speed := sp |}]) r5
      end in
    let (l, r') := go (Z.to_nat sparkleCount) (sparkles s) r in
    (set_sparkles s l, r').

Definition initEffect (s : Shape) : Rand Shape :=
  let fo ls := ls - CONFIG_shapes_fadeOutDuration in
  if String.eqb (effect s) "explosion" then
    let ls := CONFIG_shapes_animationDuration * (3#2) in
    ret (set_effect_fields s ls (maxSize s * (3#2)) (rotationSpeed s * (3#2))
           (pulsePeriod s) (bounceHeight s) (bounceSpeed s) (fo ls))
  else if String.eqb (effect s) "fireworks" then
    let ls := CONFIG_shapes_animationDuration * 2 in
    ret (set_effect_fields s ls (maxSize s * (8#10)) (rotationSpeed s) 500
           (bounceHeight s) (bounceSpeed s) (fo ls))
  else if String.eqb (effect s) "sparkle" then
    let ls := CONFIG_shapes_animationDuration * (12#10) in
    s' <- initSparkles s ;;
    ret (set_effect_fields s' ls (maxSize s') (rotationSpeed s') (pulsePeriod s')
           (bounceHeight s') (bounceSpeed s') (fo ls))
  else if String.eqb (effect s) "rainbow" then
    let ls := CONFIG_shapes_animationDuration * (13#10) in
    ret (set_effect_fields s ls (maxSize s * (12#10)) (rotationSpeed s) (pulsePeriod s)
           (bounceHeight s) (bounceSpeed s) (fo ls))
  else if String.eqb (effect s) "star" then
    bh <- randomBetween 20 40 ;;
    bs <- randomBetween (5#100) (1#10) ;;
    ret (set_effect_fields s (lifespan s) (maxSize s) (rotationSpeed s) (pulsePeriod s)
           bh bs (fo (lifespan s)))
  else ret (set_effect_fields s (lifespan s) (maxSize s) (rotationSpeed s) (pulsePeriod s)
              (bounceHeight s) (bounceSpeed s) (fo (lifespan s))).

(** init(x, y, type, color, effect), at performance.now() = [now] *)
Definition init (now : Q) (x0 y0 : Q) (ty : option shape_type) (c : string) (e : string)
    (old : Shape) : Rand Shape :=
  let s0 := reset old in
  ms <- randomBetween CONFIG_shapes_minSize CONFIG_shapes_maxSize ;;
  rot <- randomBetween 0 (Math_PI * 2) ;;
  rs <- randomBetween (-(5#1000)) (5#1000) ;;
  initEffect (mkShape x0 y0 0 ms c ty rot rs now (lifespan s0) (fadeOutStart s0) true e
                (bounceHeight s0) (bounceSpeed s0) (pulsePeriod s0) (sparkles s0)).

Definition updateEffect (age progress deltaTime : Q) (s : Shape) : Shape :=
  if String.eqb (effect s) "explosion" then
    if Qltb progress (2#10) then set_size s (maxSize s * easeBounce (progress * 5)) else s
  else if String.eqb (effect s) "fireworks" then
    if Qltb 0 (pulsePeriod s) then
      let pulsePhase := js_mod age (pulsePeriod s) / pulsePeriod s in
      let pulse := 1 + Math_sin (pulsePhase * Math_PI * 2) * (3#10) in
      set_size s (maxSize s * pulse)
    else s
  else if String.eqb (effect s) "sparkle" then
    set_sparkles s (map (fun sp => {| sparkle_x := sparkle_x sp; sparkle_y := sparkle_y sp;
                                      sparkle_size := sparkle_size sp;
                                      sparkle_rotation := sparkle_rotation sp + sparkle_speed sp * deltaTime;
                                      sparkle_speed := sparkle_speed sp |}) (sparkles s))
  else if String.eqb (effect s) "star" then
    if Qltb 0 (bounceHeight s) then
      let bouncePhase := Math_sin (age * bounceSpeed s) in
      set_y s (y s + bouncePhase * bounceHeight s * (1#100))
    else s
  else s.

(** update(deltaTime), at performance.now() = [now]; returns the object
    after the step and the boolean the method returns. *)
Definition update (now deltaTime : Q) (s : Shape) : Shape * bool :=
  if negb (isActive s) then (s, false) else
  let age := now - createdAt s in
  let progress := Math_min (age / lifespan s) 1 in
  let s1 := set_rotation s (rotation s + rotationSpeed s * deltaTime) in
  let s2 := if Qltb age (lifespan s1 * (3#10))
            then set_size s1 (maxSize s1 * easeOut (age / (lifespan s1 * (3#10))))
            else set_size s1 (maxSize s1) in
  let s3 := updateEffect age progress deltaTime s2 in
  if Qle_bool 1 progress then (set_isActive s3 false, false) else (s3, true).

(** *** ShapeManager *)

(** The keyInfo object handed over by the keyboard handler. *)
Record KeyInfo := { key_type : string; character : string; key_effect : option string }.

(** [canvas.getBoundingClientRect()] gives [rect_width] x [rect_height];
    [clock] is performance.now() during the call; [rng] the random stream. *)
Record ShapeManager := mkShapeManager {
  shapes : list nat;
  shapePool : ObjectPool Shape;
  rect_width : Q; rect_height : Q;
  clock : Q;
  rng : list Q
}.

Definition new_ShapeManager (w h now : Q) (r : list Q) : ShapeManager :=
  mkShapeManager [] (new_ObjectPool new_Shape (Some reset) 10) w h now r.

(** charCodeAt(0) - 97 of the lowercased character; on the empty string
    charCodeAt gives NaN, which is never used there since "" is its own
    upper case. *)
Definition letterIndex (c : string) : Z :=
  match toLowerCase c with
  | String a _ => (Z.of_nat (Ascii.nat_of_ascii a) - 97)%Z
  | EmptyString => 0%Z
  end.

(** parseInt(character) || 0, for the one-character strings the keyboard
    handler passes with type 'number' *)
Definition parseInt_or_0 (c : string) : Z :=
  match c with
  | String a _ => let n := Ascii.nat_of_ascii a in
                  if (48 <=? n) && (n <=? 57) then Z.of_nat (n - 48) else 0%Z
  | EmptyString => 0%Z
  end.

Definition types_at (i : Z) : option shape_type :=
  if (i <? 0)%Z then None else nth_error CONFIG_shapes_types (Z.to_nat i).

Definition getShapeType (keyInfo : KeyInfo) : Rand (option shape_type) :=
  let n := Z.of_nat (List.length CONFIG_shapes_types) in
  if String.eqb (key_type keyInfo) "letter" then
    if String.eqb (character keyInfo) (toUpperCase (character keyInfo)) then ret (Some star)
    else ret (types_at (Z.rem (letterIndex (character keyInfo)) n))
  else if String.eqb (key_type keyInfo) "number" then
    ret (types_at (Z.rem (parseInt_or_0 (character keyInfo)) n))
  else if String.eqb (key_type keyInfo) "space" then ret (Some heart)
  else if String.eqb (key_type keyInfo) "enter" then ret (Some star)
  else if String.eqb (key_type keyInfo) "arrow" then ret (Some triangle)
  else r <- Math_random ;; ret (types_at (Math_floor (r * inject_Z n))).

(** keyInfo.effect || 'normal' *)
Definition effect_or_normal (e : option string) : string :=
  match e with
  | Some e' => if String.eqb e' "" then "normal" else e'
  | None => "normal"
  end.

(** createShape(keyInfo): returns the identity of the shape it returns. *)
Definition createShape (keyInfo : KeyInfo) : St ShapeManager nat :=
  fun m =>
    let (position, r1) := getRandomPosition (rect_width m) (rect_height m)
                            CONFIG_shapes_maxSize (rng m) in
    let (o, p1) := get (shapePool m) in
    let (shapeType, r2) := getShapeType keyInfo r1 in
    let (c, r3) := getRandomColor r2 in
    let e := effect_or_normal (key_effect keyInfo) in
    let (s, r4) := init (clock m) (pos_x position) (pos_y position) shapeType c e
                     (heap p1 o) r3 in
    let p2 := set_obj o s p1 in
    let shapes1 := shapes m ++ [o] in
    if Nat.ltb CONFIG_shapes_maxActiveShapes (List.length shapes1) then
      match shapes1 with
      | oldShape :: rest =>
          (o, mkShapeManager rest (release oldShape p2) (rect_width m) (rect_height m)
                (clock m) r4)
      | [] => (o, mkShapeManager [] p2 (rect_width m) (rect_height m) (clock m) r4)
      end
    else (o, mkShapeManager shapes1 p2 (rect_width m) (rect_height m) (clock m) r4).

Definition with_shapes (m : ShapeManager) (l : list nat) (p : ObjectPool Shape) : ShapeManager :=
  mkShapeManager l p (rect_width m) (rect_height m) (clock m) (rng m).

(** update(deltaTime) *)
Definition update_mgr (deltaTime : Q) (m : ShapeManager) : ShapeManager :=
  let (kept, p) := filter_release (update (clock m) deltaTime)
                     (shapes m) (shapePool m) in
  with_shapes m kept p.

(** clear() *)
Definition clear (m : ShapeManager) : ShapeManager :=
  with_shapes m [] (release_all (shapes m) (shapePool m)).

End ShapeCode.
End Shapes.

Module Keyboard.
Import Utils.
Local Open Scope string_scope.

(** *** KeyboardHandler (src/src/js/shapes.js) *)

(** The fields of a keydown KeyboardEvent the handler reads. *)
Record KeyboardEvent := mkKeyboardEvent {
  code : string; key : string;
  ctrlKey : bool; shiftKey : bool; altKey : bool; metaKey : bool
}.

Definition BLOCKED_KEYS : list string :=
  ["Alt"; "AltLeft"; "AltRight"; "Control"; "ControlLeft"; "ControlRight";
   "Meta"; "MetaLeft"; "MetaRight"; "OS"; "OSLeft"; "OSRight";
   "F1"; "F2"; "F3"; "F4"; "F5"; "F6"; "F7"; "F8"; "F9"; "F10"; "F11"; "F12";
   "ContextMenu"; "PrintScreen"; "ScrollLock"; "Pause"; "Insert";
   "BrowserBack"; "BrowserForward"; "BrowserRefresh"; "BrowserStop";
   "BrowserSearch"; "BrowserFavorites"; "BrowserHome"]%string.

(** Set.prototype.has *)
Definition set_has (l : list string) (k : string) : bool := existsb (String.eqb k) l.

(** A parent-control combination; an absent alt or meta is [undefined],
    i.e. false. *)
Record Combo := mkCombo {
  combo_ctrl : bool; combo_shift : bool; combo_alt : bool; combo_meta : bool;
  combo_key : string
}.

(** PARENT_CONTROLS, in the order of Object.entries. *)
Definition PARENT_CONTROLS : list (string * Combo) :=
  [("exit", mkCombo true true false false "Escape");
   ("toggleSound", mkCombo true true false false "KeyM");
   ("clearScreen", mkCombo true true false false "KeyC");
   ("showControls", mkCombo true true false false "KeyP")]%string.

Definition KEY_SOUND_MAP_letters : list string := ["note"; "chime"; "bell"]%string.
Definition KEY_SOUND_MAP_numbers : list string := ["sparkle"; "chime"; "whistle"]%string.
Definition KEY_SOUND_MAP_punctuation : list string := ["bubble"; "toy"; "bell"]%string.
Definition KEY_SOUND_MAP_modifiers : list string := ["whistle"; "chime"]%string.

(** The keyInfo object built by analyzeKey; an absent property is [None]. *)
Record KeyInfo := mkKeyInfo {
  ki_code : string; ki_key : string; ki_type : string; ki_effect : string;
  ki_timestamp : Q; ki_character : option string; ki_soundType : option string;
  ki_direction : option string
}.

Definition set_effect (k : KeyInfo) (e : string) : KeyInfo :=
  mkKeyInfo (ki_code k) (ki_key k) (ki_type k) e (ki_timestamp k) (ki_character k)
    (ki_soundType k) (ki_direction k).
Definition set_soundType (k : KeyInfo) (s : option string) : KeyInfo :=
  mkKeyInfo (ki_code k) (ki_key k) (ki_type k) (ki_effect k) (ki_timestamp k)
    (ki_character k) s (ki_direction k).

(** The handler's fields, and window.debugMode which it toggles;
    [onKeyPress_set] and [onParentControl_set] tell whether the callbacks
    are functions. *)
Record KeyboardHandler := mkKeyboardHandler {
  gameActive : bool; onKeyPress_set : bool; onParentControl_set : bool;
  keyPressCount : nat; lastKeyTime : Q; debugMode : bool
}.

(** new KeyboardHandler() *)
Definition new_KeyboardHandler : KeyboardHandler :=
  mkKeyboardHandler false false false 0 0 false.

(** What a keydown leads to, in order: preventDefault()/stopPropagation(),
    a call of onParentControl(action), a call of onKeyPress(keyInfo), an
    announceToScreenReader(message). *)
Inductive output := Prevented | ParentControl (action : string) | KeyPress (info : KeyInfo)
                  | Announce (message : string).

(** matchesKeyCombo(event, combo) *)
Definition matchesKeyCombo (event : KeyboardEvent) (combo : Combo) : bool :=
  (negb (combo_ctrl combo) || ctrlKey event) &&
  (negb (combo_shift combo) || shiftKey event) &&
  (negb (combo_alt combo) || altKey event) &&
  (negb (combo_meta combo) || metaKey event) &&
  (String.eqb (code event) (combo_key combo) || String.eqb (key event) (combo_key combo)).

(** isParentControl(event) *)
Definition isParentControl (event : KeyboardEvent) : bool :=
  existsb (fun ac => matchesKeyCombo event (snd ac)) PARENT_CONTROLS.

(** checkParentControls(event): the action it triggers, if any. *)
Definition checkParentControls (event : KeyboardEvent) : option string :=
  match find (fun ac => matchesKeyCombo event (snd ac)) PARENT_CONTROLS with
  | Some (action, _) => Some action
  | None => None
  end.

(** shouldBlockKey(event) *)
Definition shouldBlockKey (event : KeyboardEvent) : bool :=
  if set_has BLOCKED_KEYS (code event) || set_has BLOCKED_KEYS (key event) then true
  else if (ctrlKey event || altKey event || metaKey event) && negb (isParentControl event)
  then true
  else false.

(** String.prototype.includes *)
Definition includes (s sub : string) : bool :=
  match String.index 0 sub s with Some _ => true | None => false end.

(** String.prototype.replace(pattern, replacement) with a string pattern:
    the first occurrence only. *)
Definition replace_first (pattern replacement s : string) : string :=
  match String.index 0 pattern s with
  | Some i => (substring 0 i s ++ replacement ++
               substring (i + String.length pattern) (String.length s) s)%string
  | None => s
  end.

(** isVowel(char) = 'aeiou'.includes(char.toLowerCase()) *)
Definition isVowel (char : string) : bool := includes "aeiou" (Shapes.toLowerCase char).

(** The character codes of the class of the regular expression of
    isPunctuation: the 32 ASCII punctuation characters, 33 to 47, 58 to
    64, 91 to 96 and 123 to 126. *)
Definition punctuation_codes : list nat :=
  [33; 34; 35; 36; 37; 38; 39; 40; 41; 42; 43; 44; 45; 46; 47;
   58; 59; 60; 61; 62; 63; 64; 91; 92; 93; 94; 95; 96; 123; 124; 125; 126]%nat.

(** isPunctuation(char): RegExp.prototype.test finds the class anywhere. *)
Definition isPunctuation (char : string) : bool :=
  existsb (fun a => existsb (Nat.eqb (Ascii.nat_of_ascii a)) punctuation_codes)
    (list_ascii_of_string char).

(** getRandomSound(sounds); [None] is [undefined]. *)
Definition getRandomSound (sounds : list string) : Rand (option string) :=
  r <- Math_random ;;
  ret (js_index (map Some sounds)
         (Math_floor (r * inject_Z (Z.of_nat (List.length sounds)))) None).

(** isVowel(keyInfo.character); the character is set whenever the type is
    'letter', the only case where it is asked. *)
Definition character_isVowel (k : KeyInfo) : bool :=
  match ki_character k with Some c => isVowel c | None => false end.

(** analyzeKey(event), with the handler's keyPressCount and lastKeyTime;
    [t_stamp] and [t_check] are the two performance.now() readings (the
    timestamp and the rapid-typing check). *)
Definition analyzeKey (keyPressCount : nat) (lastKeyTime : Q) (event : KeyboardEvent)
    (t_stamp t_check : Q) : Rand KeyInfo :=
  let c := code event in
  let info ty eff ch snd dir := mkKeyInfo c (key event) ty eff t_stamp ch snd dir in
  keyInfo1 <-
    (if String.prefix "Key" c then
       snd <- getRandomSound KEY_SOUND_MAP_letters ;;
       ret (info "letter" "normal" (Some (Shapes.toLowerCase (key event))) snd None)
     else if String.prefix "Digit" c then
       snd <- getRandomSound KEY_SOUND_MAP_numbers ;;
       ret (info "number" "normal" (Some (key event)) snd None)
     else if String.eqb c "Space" then
       ret (info "space" "explosion" None (Some "explosion") None)
     else if String.eqb c "Enter" then
       ret (info "enter" "fireworks" None (Some "fireworks") None)
     else if String.eqb c "Tab" then
       ret (info "tab" "whistle" None (Some "whistle") None)
     else if String.prefix "Arrow" c then
       ret (info "arrow" "bounce" None (Some "boing")
              (Some (Shapes.toLowerCase (replace_first "Arrow" "" c))))
     else if isPunctuation (key event) then
       snd <- getRandomSound KEY_SOUND_MAP_punctuation ;;
       ret (info "punctuation" "bubble" None snd None)
     else
       snd <- getRandomSound KEY_SOUND_MAP_modifiers ;;
       ret (info "special" "normal" None snd None))%string ;;
  let keyInfo2 :=
    if String.eqb (ki_type keyInfo1) "letter" && character_isVowel keyInfo1 then
      set_soundType (set_effect keyInfo1 "sparkle") (Some "sparkle")
    else if String.eqb (ki_type keyInfo1) "number" then set_effect keyInfo1 "star"
    else keyInfo1 in
  let keyInfo3 :=
    if Nat.ltb 0 keyPressCount && Qltb (t_check - lastKeyTime) 200 then
      set_soundType (set_effect keyInfo2 "rainbow") (Some "chime")
    else keyInfo2 in
  if String.eqb (ki_type keyInfo3) "letter" then
    snd <- (if character_isVowel keyInfo3
            then getRandomSound ["chime"; "bell"; "whistle"]
            else getRandomSound ["note"; "toy"; "bubble"])%string ;;
    ret (set_soundType keyInfo3 snd)
  else ret keyInfo3.

(** handleKeyDown(event); [now] is its performance.now() reading. *)
Definition handleKeyDown (now t_stamp t_check : Q) (event : KeyboardEvent)
    (h : KeyboardHandler) : Rand (list output * KeyboardHandler) :=
  match checkParentControls event with
  | Some action =>
      ret (Prevented :: (if onParentControl_set h then [ParentControl action] else []), h)
  | None =>
      if negb (gameActive h) then ret ([], h)
      else if shouldBlockKey event then ret ([Prevented], h)
      else if Qltb (now - lastKeyTime h) 20 then ret ([Prevented], h)
      else
        let h1 := mkKeyboardHandler (gameActive h) (onKeyPress_set h) (onParentControl_set h)
                    (S (keyPressCount h)) now
                    (if String.eqb (code event) "KeyD" then negb (debugMode h) else debugMode h) in
        keyInfo <- analyzeKey (keyPressCount h1) (lastKeyTime h1) event t_stamp t_check ;;
        ret (Prevented :: app (if onKeyPress_set h1 then [KeyPress keyInfo] else [])
               (if Nat.eqb (Nat.modulo (keyPressCount h1) 10) 0
                then [Announce (nat_to_string (keyPressCount h1) ++ " keys pressed. Having fun!")]
                else []), h1)
  end.

(** setGameActive(active) *)
Definition setGameActive (active : bool) (h : KeyboardHandler) : KeyboardHandler :=
  mkKeyboardHandler active (onKeyPress_set h) (onParentControl_set h)
    (if active then keyPressCount h else 0) (lastKeyTime h) (debugMode h).

End Keyboard.

Module Particles.
Import Utils.

(** this.color: the reset value is a hex string, updateColor() writes the
    template `hsla(${hue}, ${saturation}%, ${lightness}%, ${alpha})`. *)
Inductive particle_color := Hex (s : string) | Hsla (h s l a : Q).

Record Particle := mkParticle {
  x : Q; y : Q; vx : Q; vy : Q; size : Q; maxSize : Q; color : particle_color;
  alpha : Q; life : Q; maxLife : Q; decay : Q; gravity : Q; friction : Q;
  isActive : bool; hue : Q; saturation : Q; lightness : Q; rotationSpeed : Q;
  rotation : Q; type : string
}.

(** reset() *)
Definition reset (_ : Particle) : Particle :=
  mkParticle 0 0 0 0 0 0 (Hex "#FF6B6B") 1 1 1 (2#100) 0 (98#100) false 0 70 60 0 0 "circle".

Definition new_Particle : Particle :=
  reset (mkParticle 0 0 0 0 0 0 (Hex "") 0 0 0 0 0 0 false 0 0 0 0 0 "").

(** updateColor() *)
Definition updateColor (p : Particle) : Particle :=
  mkParticle (x p) (y p) (vx p) (vy p) (size p) (maxSize p)
    (Hsla (hue p) (saturation p) (lightness p) (alpha p)) (alpha p) (life p) (maxLife p)
    (decay p) (gravity p) (friction p) (isActive p) (hue p) (saturation p) (lightness p)
    (rotationSpeed p) (rotation p) (type p).

(** The options object of init(x, y, options); absent keys are [None]. *)
Record ParticleOptions := {
  opt_type : option string; opt_isClickParticle : option bool; opt_burstIntensity : option Q
}.

Definition no_options : ParticleOptions := Build_ParticleOptions None None None.

Section ParticleCode.
Variable Math_PI : Q.
Variable Math_sin Math_cos : Q -> Q.

(** init(x, y, options) *)
Definition init (x0 y0 : Q) (options : ParticleOptions) (old : Particle) : Rand Particle :=
  let p0 := reset old in
  let ty := match opt_type options with Some t => if String.eqb t ""%string then "circle"%string else t
                                          | None => "circle"%string end in
  let isClickParticle := match opt_isClickParticle options with Some b => b | None => false end in
  let burstIntensity := match opt_burstIntensity options with
                        | Some b => if Qeq_bool b 0 then 1 else b | None => 1 end in
  ml <- (if isClickParticle then randomBetween 2000 6000 else randomBetween 1000 4000) ;;
  ms <- (if isClickParticle
         then randomBetween CONFIG_particles_maxSize (CONFIG_particles_maxSize * (5#2))
         else randomBetween CONFIG_particles_minSize CONFIG_particles_maxSize) ;;
  v <- (if isClickParticle then
          angle <- randomBetween 0 (Math_PI * 2) ;;
          sp <- randomBetween 3 10 ;;
          let speed := sp * burstIntensity in
          ret (Math_cos angle * speed, Math_sin angle * speed)
        else
          vx0 <- randomBetween (-1) 1 ;;
          vy0 <- randomBetween (-2) (1#2) ;;
          ret (vx0, vy0)) ;;
  g <- (if isClickParticle then randomBetween (2#100) (8#100)
        else randomBetween (5#100) (15#100)) ;;
  f <- randomBetween (95#100) (99#100) ;;
  h <- randomBetween 0 360 ;;
  rs <- randomBetween (-(15#100)) (15#100) ;;
  let rs' := if isClickParticle then rs * 2 else rs in
  ret (updateColor (mkParticle x0 y0 (fst v) (snd v) 0 ms (color p0) (alpha p0) ml ml
                      (decay p0) g f true h (saturation p0) (lightness p0) rs'
                      (rotation p0) ty)).

(** update(deltaTime): the object after the step and the returned boolean *)
Definition update (deltaTime : Q) (p : Particle) : Particle * bool :=
  if negb (isActive p) then (p, false) else
  let x1 := x p + vx p * deltaTime * (6#100) in
  let y1 := y p + vy p * deltaTime * (6#100) in
  let vy1 := vy p + gravity p * deltaTime * (6#100) in
  let vx2 := vx p * friction p in
  let vy2 := vy1 * friction p in
  let rot := rotation p + rotationSpeed p * deltaTime * (1#10) in
  let life1 := life p - deltaTime in
  let lifeProgress := 1 - Math_max 0 (life1 / maxLife p) in
  let size1 :=
    if Qltb lifeProgress (15#100) then maxSize p * easeOut (lifeProgress / (15#100))
    else if Qltb (85#100) lifeProgress then
      let shrinkProgress := (lifeProgress - (85#100)) / (15#100) in
      maxSize p * (1 - easeOut shrinkProgress)
    else maxSize p in
  let alpha1 := Math_max 0 (life1 / maxLife p) in
  let hue1 := js_mod (hue p + deltaTime * (5#100)) 360 in
  let p1 := updateColor (mkParticle x1 y1 vx2 vy2 size1 (maxSize p) (color p) alpha1 life1
                          (maxLife p) (decay p) (gravity p) (friction p) true hue1
                          (saturation p) (lightness p) (rotationSpeed p) rot (type p)) in
  if Qle_bool life1 0 || Qle_bool size1 0 then
    (mkParticle (x p1) (y p1) (vx p1) (vy p1) (size p1) (maxSize p1) (color p1) (alpha p1)
       (life p1) (maxLife p1) (decay p1) (gravity p1) (friction p1) false (hue p1)
       (saturation p1) (lightness p1) (rotationSpeed p1) (rotation p1) (type p1), false)
  else (p1, true).

(** *** ParticleSystem *)

(** [canvas_width] x [canvas_height] are canvas.width and canvas.height;
    [clock] is performance.now() during the call. *)
Record ParticleSystem := mkParticleSystem {
  particles : list nat;
  particlePool : ObjectPool Particle;
  canvas_width : Q; canvas_height : Q;
  mouseX : Q; mouseY : Q;
  constantEmitRate : Q;
  lastConstantEmitTime : Q;
  constantParticleTypes : list string;
  maxClickParticles : Z;
  clock : Q;
  rng : list Q
}.

Definition new_ParticleSystem (w h now : Q) (r : list Q) : ParticleSystem :=
  mkParticleSystem [] (new_ObjectPool new_Particle (Some reset) 50) w h (w / 2) (h / 2)
    120 0 ["circle"; "sparkle"]%string 20 now r.

Definition with_particles (s : ParticleSystem) (l : list nat) (p : ObjectPool Particle)
    (r : list Q) : ParticleSystem :=
  mkParticleSystem l p (canvas_width s) (canvas_height s) (mouseX s) (mouseY s)
    (constantEmitRate s) (lastConstantEmitTime s) (constantParticleTypes s)
    (maxClickParticles s) (clock s) r.

Definition set_lastConstantEmitTime (s : ParticleSystem) (t : Q) : ParticleSystem :=
  mkParticleSystem (particles s) (particlePool s) (canvas_width s) (canvas_height s)
    (mouseX s) (mouseY s) (constantEmitRate s) t (constantParticleTypes s)
    (maxClickParticles s) (clock s) (rng s).

(** createParticle(x, y, options): returns the identity of the particle. *)
Definition createParticle (x0 y0 : Q) (options : ParticleOptions) : St ParticleSystem nat :=
  fun s =>
    let '(ps, p1) :=
      if Nat.leb CONFIG_particles_maxActiveParticles (List.length (particles s)) then
        match particles s with
        | oldParticle :: rest => (rest, release oldParticle (particlePool s))
        | [] => ([], particlePool s) (* unreachable: 100 <= 0 *)
        end
      else (particles s, particlePool s) in
    let (o, p2) := get p1 in
    let (v, r1) := init x0 y0 options (heap p2 o) (rng s) in
    (o, with_particles s (ps ++ [o]) (set_obj o v p2) r1).

(** createConstantParticles() *)
Definition createConstantParticles : St ParticleSystem unit :=
  fun s =>
    let now := clock s in
    if Qltb (now - lastConstantEmitTime s) (constantEmitRate s) then (tt, s) else
    let s1 := set_lastConstantEmitTime s now in
    let (particleCount, r1) := randomIntBetween 1 3 (rng s1) in
    let one : St ParticleSystem unit :=
      fun s2 =>
        let (angle, ra) := randomBetween 0 (Math_PI * 2) (rng s2) in
        let (distance, rb) := randomBetween 10 50 ra in
        let x0 := mouseX s2 + Math_cos angle * distance in
        let y0 := mouseY s2 + Math_sin angle * distance in
        let clampedX := Math_max 0 (Math_min x0 (canvas_width s2)) in
        let clampedY := Math_max 0 (Math_min y0 (canvas_height s2)) in
        let (rt, rc) := Math_random rb in
        let ty := js_index (map Some (constantParticleTypes s2))
                    (Math_floor (rt * inject_Z (Z.of_nat (List.length (constantParticleTypes s2)))))
                    None in
        let (_, s3) := createParticle clampedX clampedY
                         (Build_ParticleOptions ty (Some false) None)
                         (with_particles s2 (particles s2) (particlePool s2) rc) in
        (tt, s3) in
    st_repeat (Z.to_nat particleCount)
      one (with_particles s1 (particles s1) (particlePool s1) r1).

(** createClickEffect(x, y, button) *)
Definition createClickEffect (x0 y0 : Q) (button : Z) : St ParticleSystem unit :=
  fun s =>
    let '(effectIntensity, particleTypes) :=
      match button with
      | 0%Z => (3#2, ["star"; "heart"]%string)
      | 1%Z => (2, ["sparkle"; "star"]%string)
      | 2%Z => (5#2, ["heart"; "star"; "sparkle"]%string)
      | _ => (1, ["star"; "heart"; "sparkle"]%string)
      end in
    let particleCount := Math_floor (inject_Z (maxClickParticles s) * effectIntensity) in
    let one : St ParticleSystem unit :=
      fun s2 =>
        let (rt, r1) := Math_random (rng s2) in
        let ty := js_index (map Some particleTypes)
                    (Math_floor (rt * inject_Z (Z.of_nat (List.length particleTypes)))) None in
        let (_, s3) := createParticle x0 y0
                         (Build_ParticleOptions ty (Some true) (Some effectIntensity))
                         (with_particles s2 (particles s2) (particlePool s2) r1) in
        (tt, s3) in
    st_repeat (Z.to_nat particleCount) one s.

(** particle.x < -100 || particle.x > canvas.width + 100 || ... *)
Definition off_screen (s : ParticleSystem) (p : Particle) : bool :=
  Qltb (x p) (-100) || Qltb (canvas_width s + 100) (x p) ||
  Qltb (y p) (-100) || Qltb (canvas_height s + 100) (y p).

(** update(deltaTime) *)
Definition update_sys (deltaTime : Q) (s : ParticleSystem) : ParticleSystem :=
  let (_, s1) := createConstantParticles s in
  let (kept1, p1) := filter_release (update deltaTime) (particles s1) (particlePool s1) in
  let (kept2, p2) := filter_release (fun p => (p, negb (off_screen s1 p))) kept1 p1 in
  with_particles s1 kept2 p2 (rng s1).

(** clear() *)
Definition clear (s : ParticleSystem) : ParticleSystem :=
  with_particles s [] (release_all (particles s) (particlePool s)) (rng s).

End ParticleCode.
End Particles.

Module Sounds.
Import Utils.

(** What a playSound call leads to: the manager afterwards, or an
    exception escaping the call. *)
Inductive outcome (X : Type) := Ok (x : X) | Throws.
Arguments Ok {X}. Arguments Throws {X}.

(** [activeSounds] is the Set of the ids of sounds still playing (its size
    is the length of the list); [signals] is ghost: every sound started. *)
Record SoundManager := mkSoundManager {
  isEnabled : bool;
  activeSounds : list nat;
  maxConcurrentSounds : nat;
  useWebAudio : bool;
  hasAudioContext : bool;
  signals : list (string * Q)
}.

Section SoundCode.
(** playWebAudioSound and playFallbackSound, the two synthesis back ends;
    playSound is proved correct for any of them. *)
Variable playWebAudioSound : string -> Q -> SoundManager -> outcome SoundManager.
Variable playFallbackSound : string -> Q -> SoundManager -> outcome SoundManager.

(** playSound(type, frequency, options) *)
Definition playSound (type : string) (frequency : Q) (m : SoundManager) : outcome SoundManager :=
  if negb (isEnabled m) then Ok m
  else if Nat.leb (maxConcurrentSounds m) (List.length (activeSounds m)) then Ok m
  else if useWebAudio m && hasAudioContext m then playWebAudioSound type frequency m
  else playFallbackSound type frequency m.

End SoundCode.

(** A web-audio back end as in playWebAudioSound: it records the signal and
    adds a fresh id to activeSounds (removed when the sound ends). *)
Definition start_signal (type : string) (frequency : Q) (m : SoundManager) : outcome SoundManager :=
  Ok (mkSoundManager (isEnabled m) (S (list_max (activeSounds m)) :: activeSounds m)
        (maxConcurrentSounds m) (useWebAudio m) (hasAudioContext m)
        (signals m ++ [(type, frequency)])).

Definition new_SoundManager : SoundManager :=
  mkSoundManager true [] CONFIG_audio_maxConcurrentSounds true true [].

End Sounds.

Module GameLoop.

(** BabyKeyboardGame's loop state; [updates] is ghost: the deltaTime of
    every this.update(deltaTime) call, in order. *)
Record Game := mkGame {
  isRunning : bool;
  isPaused : bool;
  parentControlsVisible : bool;
  lastFrameTime : Q;
  updates : list Q
}.

(** The events the loop sees: a requestAnimationFrame callback at
    [currentTime], a visibilitychange with document.hidden, a toggle of the
    parent controls. *)
Inductive event := Frame (currentTime : Q) | VisibilityChange (hidden : bool) | ToggleParentControls.

(** gameLoop(currentTime) *)
Definition gameLoop (currentTime : Q) (g : Game) : Game :=
  if negb (isRunning g) || isPaused g then g
  else
    let deltaTime := currentTime - lastFrameTime g in
    mkGame (isRunning g) (isPaused g) (parentControlsVisible g) currentTime
      (updates g ++ [deltaTime]).

(** handleVisibilityChange() *)
Definition handleVisibilityChange (hidden : bool) (g : Game) : Game :=
  if hidden then mkGame (isRunning g) true (parentControlsVisible g) (lastFrameTime g) (updates g)
  else if isRunning g then
    mkGame (isRunning g) false (parentControlsVisible g) (lastFrameTime g) (updates g)
  else g.

(** toggleParentControls() *)
Definition toggleParentControls (g : Game) : Game :=
  let vis := negb (parentControlsVisible g) in
  mkGame (isRunning g) vis vis (lastFrameTime g) (updates g).

Definition step (e : event) (g : Game) : Game :=
  match e with
  | Frame t => gameLoop t g
  | VisibilityChange h => handleVisibilityChange h g
  | ToggleParentControls => toggleParentControls g
  end.

Fixpoint run (es : list event) (g : Game) : Game :=
  match es with
  | [] => g
  | e :: es' => run es' (step e g)
  end.

(** CONFIG.performance.maxFrameTime: 1000ms / 60fps *)
Definition maxFrameTime : Q := 1667 # 100.

End GameLoop.

Module KeySounds.
Import Utils Keyboard.
Local Open Scope string_scope.

(** MUSICAL_NOTES, the C major pentatonic scale; an object literal, whose
    insertion order is the order of NOTE_NAMES = Object.keys(MUSICAL_NOTES). *)
Definition MUSICAL_NOTES : list (string * Q) :=
  [("C4", 26163 # 100); ("D4", 29366 # 100); ("E4", 32963 # 100); ("G4", 392);
   ("A4", 440); ("C5", 52325 # 100); ("D5", 58733 # 100); ("E5", 65925 # 100);
   ("G5", 78399 # 100); ("A5", 880)].
Definition NOTE_NAMES : list string := map fst MUSICAL_NOTES.

(** MUSICAL_NOTES[name]; None is undefined, as is the name itself when
    NOTE_NAMES was indexed out of range. *)
Definition note_of (name : option string) : option Q :=
  match name with
  | None => None
  | Some n => option_map snd (find (fun p => String.eqb (fst p) n) MUSICAL_NOTES)
  end.

(** NOTE_NAMES[i] for an integer index (undefined below 0 and past the end). *)
Definition note_name (i : Z) : option string := js_index (map Some NOTE_NAMES) i None.

(** s.charCodeAt(0), None for NaN (the empty string). *)
Definition charCodeAt0 (s : string) : option Z :=
  match s with EmptyString => None | String a _ => Some (Z.of_nat (Ascii.nat_of_ascii a)) end.

(** getNoteForLetter(letter): NaN - 97 and NaN % 10 stay NaN, and
    NOTE_NAMES[NaN] is undefined; the % of JS truncates (Z.rem). *)
Definition getNoteForLetter (letter : string) : option Q :=
  match charCodeAt0 (Shapes.toLowerCase letter) with
  | None => None
  | Some c =>
      let letterIndex := (c - 97)%Z in
      let noteIndex := Z.rem letterIndex (Z.of_nat (List.length NOTE_NAMES)) in
      note_of (note_name noteIndex)
  end.

(** getRandomNote() *)
Definition getRandomNote : Rand (option Q) :=
  r <- Math_random ;;
  ret (note_of (note_name (Math_floor (r * inject_Z (Z.of_nat (List.length NOTE_NAMES)))))).

(** The second switch of playKeySound, on keyInfo.effect. *)
Definition effect_sound (effect soundType : string) : string :=
  if String.eqb effect "explosion" then "explosion"
  else if String.eqb effect "fireworks" then "fireworks"
  else if String.eqb effect "sparkle" then "sparkle"
  else if String.eqb effect "rainbow" then "chime"
  else soundType.

(** playSound(type, frequency): a frequency left undefined takes the
    default parameter 440. *)
Definition or440 (note : option Q) : Q := match note with Some f => f | None => 440 end.

Section PlayKeySound.
Variable playWebAudioSound : string -> Q -> Sounds.SoundManager -> Sounds.outcome Sounds.SoundManager.
Variable playFallbackSound : string -> Q -> Sounds.SoundManager -> Sounds.outcome Sounds.SoundManager.
(** parseInt(keyInfo.character), None for NaN; the character of a number
    key is one key name, so the result is an exact integer. *)
Variable parseInt : option string -> option Z.

(** The first switch of playKeySound, on keyInfo.type, from the note drawn
    before it: the sound type and the note, or the TypeError of
    undefined.toLowerCase() for a letter without a character. *)
Definition key_sound (ki : KeyInfo) (note0 : option Q) : Rand (string * Sounds.outcome (option Q)) :=
  if String.eqb (ki_type ki) "letter" then
    ret ("note", match ki_character ki with
                 | Some c => Sounds.Ok (getNoteForLetter c)
                 | None => Sounds.Throws
                 end)
  else if String.eqb (ki_type ki) "number" then
    ret ("chime", Sounds.Ok (note_of (match parseInt (ki_character ki) with
                                      | Some v => note_name (Z.rem v (Z.of_nat (List.length NOTE_NAMES)))
                                      | None => None
                                      end)))
  else if String.eqb (ki_type ki) "space" then ret ("explosion", Sounds.Ok (note_of (Some "C4")))
  else if String.eqb (ki_type ki) "enter" then ret ("fireworks", Sounds.Ok (note_of (Some "C5")))
  else if String.eqb (ki_type ki) "arrow" then
    note <- getRandomNote ;; ret ("toy", Sounds.Ok note)
  else ret ("note", Sounds.Ok note0).

(** playKeySound(keyInfo) *)
Definition playKeySound (ki : KeyInfo) (m : Sounds.SoundManager) : Rand (Sounds.outcome Sounds.SoundManager) :=
  if negb (Sounds.isEnabled m) then ret (Sounds.Ok m)
  else
    note0 <- getRandomNote ;;
    sn <- key_sound ki note0 ;;
    match snd sn with
    | Sounds.Throws => ret Sounds.Throws
    | Sounds.Ok note =>
        ret (Sounds.playSound playWebAudioSound playFallbackSound
               (effect_sound (ki_effect ki) (fst sn)) (or440 note) m)
    end.

End PlayKeySound.

End KeySounds.

Module Bursts.
Import Utils Particles.
Local Open Scope string_scope.

(** particle.init(x, y, 'star' or 'circle') passes a string as options:
    'star'.type, 'star'.isClickParticle and 'star'.burstIntensity are all
    undefined on a string primitive. *)
Definition string_options (_ : string) : ParticleOptions := no_options.

(** particle.vx = ..., particle.vy = ..., particle.maxSize = ...,
    particle.hue = ... (no updateColor() afterwards). *)
Definition set_burst (p : Particle) (vx0 vy0 ms h : Q) : Particle :=
  mkParticle (x p) (y p) vx0 vy0 (size p) ms (color p) (alpha p) (life p) (maxLife p)
    (decay p) (gravity p) (friction p) (isActive p) h (saturation p) (lightness p)
    (rotationSpeed p) (rotation p) (type p).

Section Burst.
Variable Math_PI : Q.
Variable Math_sin Math_cos : Q -> Q.
(** getRandomColors(count) sorts a copy of BABY_COLORS with a random
    comparator, whose number of Math.random() calls is the engine's. *)
Variable getRandomColors : Z -> Rand (list string).

(** The loop body of createBurst for the indices [is], with its break. *)
Fixpoint burst_loop (x0 y0 : Q) (count : nat) (is : list nat) : St ParticleSystem unit :=
  fun s =>
    match is with
    | [] => (tt, s)
    | i :: rest =>
        if Nat.leb CONFIG_particles_maxActiveParticles (List.length (particles s)) then (tt, s)
        else
          let (o, p1) := get (particlePool s) in
          let (v, r1) := init Math_PI Math_sin Math_cos x0 y0
                           (string_options (if Nat.eqb (i mod 3) 0 then "star" else "circle"))
                           (heap p1 o) (rng s) in
          let angle := inject_Z (Z.of_nat i) / inject_Z (Z.of_nat count) * Math_PI * 2 in
          let (speed, r2) := randomBetween 3 8 r1 in
          let (m, r3) := randomBetween (8#10) (3#2) r2 in
          let (h, r4) := randomBetween 0 360 r3 in
          let v' := set_burst v (Math_cos angle * speed) (Math_sin angle * speed)
                      (maxSize v * m) h in
          burst_loop x0 y0 count rest
            (with_particles s (particles s ++ [o]) (set_obj o v' p1) r4)
    end.

(** createBurst(x, y, count) *)
Definition createBurst (x0 y0 : Q) (count : nat) : St ParticleSystem unit :=
  fun s =>
    let (_, r1) := getRandomColors 3%Z (rng s) in
    burst_loop x0 y0 count (seq 0 count) (with_particles s (particles s) (particlePool s) r1).

End Burst.

End Bursts.

Module KeyDisplays.
Import Utils Keyboard.
Local Open Scope string_scope.

(** The objects pushed onto this.keyDisplays. *)
Record KeyDisplay := mkKeyDisplay {
  text : string; kd_x : Q; kd_y : Q; kd_alpha : Q; scale : Q; maxScale : Q;
  createdAt : Q; lifespan : Q; kd_color : string
}.

Definition set_kd_y (d : KeyDisplay) (v : Q) : KeyDisplay :=
  mkKeyDisplay (text d) (kd_x d) v (kd_alpha d) (scale d) (maxScale d) (createdAt d)
    (lifespan d) (kd_color d).
Definition set_kd_alpha (d : KeyDisplay) (v : Q) : KeyDisplay :=
  mkKeyDisplay (text d) (kd_x d) (kd_y d) v (scale d) (maxScale d) (createdAt d)
    (lifespan d) (kd_color d).
Definition set_scale (d : KeyDisplay) (v : Q) : KeyDisplay :=
  mkKeyDisplay (text d) (kd_x d) (kd_y d) (kd_alpha d) v (maxScale d) (createdAt d)
    (lifespan d) (kd_color d).

(** keyInfo.key.length === 1 ? keyInfo.key.toUpperCase() : keyInfo.code.replace('Key', '') *)
Definition keyText (ki : KeyInfo) : string :=
  if Nat.eqb (String.length (ki_key ki)) 1 then Shapes.toUpperCase (ki_key ki)
  else replace_first "Key" "" (ki_code ki).

(** displayKeyFeedback(keyInfo, shape), with [now] = performance.now();
    this.keyDisplays is undefined ([None]) before the first call. *)
Definition displayKeyFeedback (now : Q) (ki : KeyInfo) (shape : Shapes.Shape)
    (kds : option (list KeyDisplay)) : option (list KeyDisplay) :=
  let l := match kds with Some l => l | None => [] end in
  let l1 := app l [mkKeyDisplay (keyText ki) (Shapes.x shape) (Shapes.y shape - 30) 1 0 (12#10)
                     now 1500
                     (if String.eqb (Shapes.color shape) "" then "#FFFFFF" else Shapes.color shape)] in
  Some (if Nat.ltb 10 (List.length l1) then tl l1 else l1).

(** The callback of this.keyDisplays.filter in renderKeyDisplays (the
    drawing calls apart): the display after its update, or [None] when it
    is dropped. Every display has lifespan 1500, so progress is a finite
    number. *)
Definition render_step (now : Q) (d : KeyDisplay) : option KeyDisplay :=
  let age := now - createdAt d in
  let progress := age / lifespan d in
  if Qle_bool 1 progress then None
  else
    let d1 := if Qltb progress (2#10) then set_scale d (maxScale d * (progress / (2#10)))
              else if Qltb (8#10) progress then
                let fadeProgress := (progress - (8#10)) / (2#10) in
                set_kd_alpha d (1 - fadeProgress)
              else d in
    Some (set_kd_y d1 (kd_y d1 - (1#2))).

Fixpoint filter_step (now : Q) (l : list KeyDisplay) : list KeyDisplay :=
  match l with
  | [] => []
  | d :: l' => match render_step now d with
               | Some d1 => d1 :: filter_step now l'
               | None => filter_step now l'
               end
  end.

(** renderKeyDisplays(), with [now] = performance.now(). *)
Definition renderKeyDisplays (now : Q) (kds : option (list KeyDisplay)) : option (list KeyDisplay) :=
  match kds with
  | None => None
  | Some [] => Some []
  | Some l => Some (filter_step now l)
  end.

(** The two methods that change this.keyDisplays: a processed key press and
    a rendered frame. *)
Inductive kd_event :=
  | Feedback (now : Q) (ki : KeyInfo) (shape : Shapes.Shape)
  | Render (now : Q).

Definition kd_step (e : kd_event) (kds : option (list KeyDisplay)) : option (list KeyDisplay) :=
  match e with
  | Feedback now ki shape => displayKeyFeedback now ki shape kds
  | Render now => renderKeyDisplays now kds
  end.

Definition kd_run (es : list kd_event) (kds : option (list KeyDisplay)) : option (list KeyDisplay) :=
  fold_left (fun acc e => kd_step e acc) es kds.

End KeyDisplays.

Module MainKeys.
Import Utils Keyboard.
Local Open Scope string_scope.

(** The part of BabyKeyboardGame that handleKeyPress reads and writes;
    [sound_rng] is the random stream of the sound manager's draws. *)
Record Game := mkGame {
  isRunning : bool;
  shapeManager : Shapes.ShapeManager;
  particleSystem : Particles.ParticleSystem;
  soundManager : Sounds.SoundManager;
  keyDisplays : option (list KeyDisplays.KeyDisplay);
  shapesCreated : nat; soundsPlayed : nat; totalKeyPresses : nat;
  sound_rng : list Q
}.

(** The fields of keyInfo that ShapeManager.createShape reads: its type,
    its character (read only for letters and numbers, which always carry
    one) and its effect. *)
Definition shape_key_info (ki : KeyInfo) : Shapes.KeyInfo :=
  {| Shapes.key_type := ki_type ki;
     Shapes.character := match ki_character ki with Some c => c | None => "" end;
     Shapes.key_effect := Some (ki_effect ki) |}.

Section HandleKeyPress.
Variable Math_PI : Q.
Variable Math_sin Math_cos : Q -> Q.
Variable getRandomColors : Z -> Rand (list string).
Variable playWebAudioSound : string -> Q -> Sounds.SoundManager -> Sounds.outcome Sounds.SoundManager.
Variable playFallbackSound : string -> Q -> Sounds.SoundManager -> Sounds.outcome Sounds.SoundManager.
Variable parseInt : option string -> option Z.

(** handleKeyPress(keyInfo), with [now] the performance.now() reading of
    displayKeyFeedback. createShape always returns a shape object, so the
    if (shape) branch is always taken; an exception of playKeySound
    escapes the call. *)
Definition handleKeyPress (now : Q) (ki : KeyInfo) (g : Game) : Sounds.outcome Game :=
  if negb (isRunning g) then Sounds.Ok g
  else
    let (o, sm) := Shapes.createShape Math_PI (shape_key_info ki) (shapeManager g) in
    let shape := heap (Shapes.shapePool sm) o in
    let kds := KeyDisplays.displayKeyFeedback now ki shape (keyDisplays g) in
    let (res, r1) := KeySounds.playKeySound playWebAudioSound playFallbackSound parseInt ki
                       (soundManager g) (sound_rng g) in
    match res with
    | Sounds.Throws => Sounds.Throws
    | Sounds.Ok m =>
        let ps :=
          if String.eqb (ki_effect ki) "explosion" || String.eqb (ki_effect ki) "fireworks" then
            snd (Bursts.createBurst Math_PI Math_sin Math_cos getRandomColors
                   (Shapes.x shape) (Shapes.y shape)
                   (if String.eqb (ki_effect ki) "explosion" then 15 else 10)
                   (particleSystem g))
          else particleSystem g in
        Sounds.Ok (mkGame (isRunning g) sm ps m kds (S (shapesCreated g)) (S (soundsPlayed g))
                     (S (totalKeyPresses g)) r1)
    end.

End HandleKeyPress.

End MainKeys.

Module JsNumbers.
Import Utils.

(** A JS number as the clamp of createConstantParticles sees it: a finite
    value, one of the two infinities, or NaN (the sign of zero is left
    out).  Elsewhere the development keeps to finite values, as Q. *)
Inductive number := Fin (q : Q) | PosInf | NegInf | NaN.

(** a + b *)
Definition js_add (a b : number) : number :=
  match a, b with
  | NaN, _ | _, NaN => NaN
  | PosInf, NegInf | NegInf, PosInf => NaN
  | PosInf, _ | _, PosInf => PosInf
  | NegInf, _ | _, NegInf => NegInf
  | Fin p, Fin q => Fin (p + q)
  end.

(** Math.min(a, b): NaN if either is NaN *)
Definition js_min (a b : number) : number :=
  match a, b with
  | NaN, _ | _, NaN => NaN
  | NegInf, _ | _, NegInf => NegInf
  | PosInf, b' => b'
  | a', PosInf => a'
  | Fin p, Fin q => Fin (Math_min p q)
  end.

(** Math.max(a, b): NaN if either is NaN *)
Definition js_max (a b : number) : number :=
  match a, b with
  | NaN, _ | _, NaN => NaN
  | PosInf, _ | _, PosInf => PosInf
  | NegInf, b' => b'
  | a', NegInf => a'
  | Fin p, Fin q => Fin (Math_max p q)
  end.

(** The position createConstantParticles hands to createParticle for a
    mouse coordinate [mouse], an offset Math.cos(angle) * distance (or
    Math.sin) [d] and a canvas size [size]:
    Math.max(0, Math.min(mouse + d, size)). *)
Definition constant_emission_coord (mouse : number) (d size : Q) : number :=
  js_max (Fin 0) (js_min (js_add mouse (Fin d)) (Fin size)).

End JsNumbers.

(** * Properties *)

From Stdlib Require Import Lqa Permutation.

Lemma Qle_bool_false (a b : Q) : Qle_bool a b = false -> b < a.
Proof.
  intros H. destruct (Qlt_le_dec b a) as [Hlt|Hle]; [exact Hlt|].
  apply Qle_bool_iff in Hle. congruence.
Qed.

(** Turn the boolean comparisons of the code into propositions for lra. *)
Ltac qbool :=
  repeat match goal with
  | H : Qle_bool _ _ = true |- _ => apply Qle_bool_iff in H
  | H : Qle_bool _ _ = false |- _ => apply Qle_bool_false in H
  end.

Lemma Math_min_progress_lt (a : Q) : a < 1 -> Qle_bool 1 (Math_min a 1) = false.
Proof.
  intros Ha. unfold Math_min.
  destruct (Qle_bool a 1) eqn:E; destruct (Qle_bool 1 _) eqn:F; qbool; auto; lra.
Qed.

Lemma Math_min_progress_ge (a : Q) : 1 <= a -> Qle_bool 1 (Math_min a 1) = true.
Proof.
  intros Ha. unfold Math_min.
  destruct (Qle_bool a 1) eqn:E; apply Qle_bool_iff; qbool; lra.
Qed.

Module ShapeProps.
Import Utils Shapes.

Section WithMath.
Variable Math_PI : Q.
Variable Math_sin : Q -> Q.

Lemma update_alive_iff (now dt : Q) (s : Shape) :
  isActive s = true ->
  snd (update Math_PI Math_sin now dt s) = negb (Qle_bool 1 (Math_min ((now - createdAt s) / lifespan s) 1)).
Proof.
  intros Ha. unfold update. rewrite Ha. simpl.
  destruct (Qle_bool 1 _); reflexivity.
Qed.

Lemma init_explosion_fields (now x0 y0 : Q) ty c old r :
  let s := fst (init Math_PI now x0 y0 ty c "explosion" old r) in
  lifespan s = CONFIG_shapes_animationDuration * (3#2) /\ createdAt s = now /\ isActive s = true.
Proof.
  destruct r as [|r1 [|r2 [|r3 r]]]; repeat split; reflexivity.
Qed.

Lemma progress_at (now t L : Q) :
  ~ L == 0 -> (now + t - now) / L == t / L.
Proof. intros HL. field. exact HL. Qed.

(** C4: a shape initialised with effect 'explosion' at time [now] has
    lifespan 4500 ms (3000 * 1.5); its update() reports it alive at
    [now + 4499] and expired at [now + 4501]. *)
Theorem explosion_lifespan_4500 (now x0 y0 dt : Q) ty c old r :
  let s := fst (init Math_PI now x0 y0 ty c "explosion" old r) in
  lifespan s == 4500 /\
  snd (update Math_PI Math_sin (now + 4499) dt s) = true /\
  snd (update Math_PI Math_sin (now + 4501) dt s) = false.
Proof.
  intros s. destruct (init_explosion_fields now x0 y0 ty c old r) as [HL [HC HA]].
  fold s in HL, HC, HA.
  split; [rewrite HL; reflexivity|].
  rewrite !update_alive_iff by exact HA. rewrite HC, HL. split.
  - rewrite Math_min_progress_lt; [reflexivity|].
    rewrite progress_at by (compute; discriminate). unfold CONFIG_shapes_animationDuration.
    apply Qlt_shift_div_r; lra.
  - rewrite Math_min_progress_ge; [reflexivity|].
    rewrite progress_at by (compute; discriminate). unfold CONFIG_shapes_animationDuration.
    apply Qle_shift_div_l; lra.
Qed.

End WithMath.

(** C6: for a 'letter' key, a lowercase character maps to
    CONFIG.shapes.types at its alphabetic index modulo 5 (so 'a' and 'k'
    give the same shape), an uppercase character always maps to 'star',
    and no random draw is consumed. *)
Theorem getShapeType_letters (c : Ascii.ascii) (e : option string) (r : list Q) :
  ((97 <= Ascii.nat_of_ascii c <= 122)%nat ->
     getShapeType (Build_KeyInfo "letter" (String c EmptyString) e) r =
     (nth_error CONFIG_shapes_types ((Ascii.nat_of_ascii c - 97) mod 5)%nat, r)) /\
  ((65 <= Ascii.nat_of_ascii c <= 90)%nat ->
     getShapeType (Build_KeyInfo "letter" (String c EmptyString) e) r = (Some star, r)) /\
  fst (getShapeType (Build_KeyInfo "letter" "a" e) r) =
  fst (getShapeType (Build_KeyInfo "letter" "k" e) r).
Proof.
  split; [|split]; [| |reflexivity]; intros H;
    destruct c as [[] [] [] [] [] [] [] []];
    first [reflexivity | (cbn in H; lia)].
Qed.

Lemma getShapeType_letters_witness :
  (97 <= Ascii.nat_of_ascii (Ascii.ascii_of_nat 98) <= 122)%nat /\
  getShapeType (Build_KeyInfo "letter" (String (Ascii.ascii_of_nat 98) EmptyString) None) [] = (Some square, []) /\
  (65 <= Ascii.nat_of_ascii (Ascii.ascii_of_nat 66) <= 90)%nat /\
  getShapeType (Build_KeyInfo "letter" (String (Ascii.ascii_of_nat 66) EmptyString) None) [] = (Some star, []).
Proof.
  assert (H1 : (97 <= Ascii.nat_of_ascii (Ascii.ascii_of_nat 98) <= 122)%nat) by (vm_compute; lia).
  assert (H2 : (65 <= Ascii.nat_of_ascii (Ascii.ascii_of_nat 66) <= 90)%nat) by (vm_compute; lia).
  destruct (getShapeType_letters (Ascii.ascii_of_nat 98) None []) as [Hl _].
  destruct (getShapeType_letters (Ascii.ascii_of_nat 66) None []) as [_ [Hu _]].
  split; [exact H1|]. split; [rewrite (Hl H1); reflexivity|].
  split; [exact H2|]. exact (Hu H2).
Defined.

End ShapeProps.

Module PoolProps.
Import Utils.

Lemma released_app (l1 l2 : list pool_event) :
  released (l1 ++ l2) = released l1 ++ released l2.
Proof. unfold released. apply flat_map_app. Qed.

Lemma get_released {A} (p : ObjectPool A) :
  released (log (snd (get p))) = released (log p).
Proof.
  unfold get. destruct (rev (pool p)); cbn; rewrite released_app, app_nil_r; reflexivity.
Qed.

Lemma release_released {A} (o : nat) (p : ObjectPool A) :
  released (log (release o p)) = released (log p) ++ [o].
Proof. unfold release. cbn. rewrite released_app. reflexivity. Qed.

(** A boolean duplicate check, to establish NoDup on computed lists. *)
Fixpoint nodupb (l : list nat) : bool :=
  match l with
  | [] => true
  | a :: l' => negb (existsb (Nat.eqb a) l') && nodupb l'
  end.

Lemma nodupb_NoDup (l : list nat) : nodupb l = true -> NoDup l.
Proof.
  induction l as [|a l IH]; intros H; [constructor|].
  cbn in H. apply andb_prop in H. destruct H as [H1 H2].
  constructor; [|exact (IH H2)].
  intros Hin. apply negb_true_iff in H1.
  assert (existsb (Nat.eqb a) l = true) by (apply existsb_exists; exists a; split;
    [exact Hin | apply Nat.eqb_refl]).
  congruence.
Qed.

Lemma set_obj_log {A} (o : nat) (v : A) (p : ObjectPool A) : log (set_obj o v p) = log p.
Proof. reflexivity. Qed.

Lemma heap_release_other {A} (o j : nat) (p : ObjectPool A) :
  j <> o -> heap (release o p) j = heap p j.
Proof.
  intros H. unfold release, upd. destruct (resetFn p); cbn; [|reflexivity].
  rewrite (proj2 (Nat.eqb_neq _ _) H). reflexivity.
Qed.

Lemma heap_upd_other {A} (o j : nat) (a : A) (p : ObjectPool A) :
  j <> o -> heap (with_pool p (upd (heap p) o a) (next p) (pool p) (log p)) j = heap p j.
Proof. intros H. cbn. unfold upd. rewrite (proj2 (Nat.eqb_neq _ _) H). reflexivity. Qed.

Lemma filter_release_heap_notin {A} (step : A -> A * bool) (l : list nat) (p : ObjectPool A)
    (j : nat) :
  ~ In j l -> heap (snd (filter_release step l p)) j = heap p j.
Proof.
  revert p. induction l as [|a l IH]; intros p Hj; [reflexivity|].
  cbn [filter_release]. destruct (step (heap p a)) as [a' alive].
  assert (Hja : j <> a) by (intro; subst; apply Hj; left; reflexivity).
  assert (Hjl : ~ In j l) by (intro; apply Hj; right; assumption).
  destruct (filter_release step l _) as [kept p3] eqn:Er. cbn [snd].
  pose proof (IH (if alive then with_pool p (upd (heap p) a a') (next p) (pool p) (log p)
                 else release a (with_pool p (upd (heap p) a a') (next p) (pool p) (log p))) Hjl)
    as E.
  rewrite Er in E. cbn [snd] in E. rewrite E.
  destruct alive; [|rewrite heap_release_other by exact Hja]; apply heap_upd_other; exact Hja.
Qed.

(** One pass of the filter in an update call: the kept identities are those
    whose step reports alive, the ones whose step reports dead are released
    in the pass, and a kept object holds its stepped state. *)
Lemma filter_release_spec {A} (step : A -> A * bool) (l : list nat) (p : ObjectPool A) :
  NoDup l ->
  fst (filter_release step l p) = filter (fun o => snd (step (heap p o))) l /\
  released (log (snd (filter_release step l p))) =
    released (log p) ++ filter (fun o => negb (snd (step (heap p o)))) l /\
  (forall o, In o l -> snd (step (heap p o)) = true ->
     heap (snd (filter_release step l p)) o = fst (step (heap p o))).
Proof.
  revert p. induction l as [|a l IH]; intros p Hnd.
  - cbn. rewrite app_nil_r. repeat split. intros o [].
  - inversion Hnd as [|? ? Hna Hnd']; subst.
    cbn [filter_release]. destruct (step (heap p a)) as [a' alive] eqn:Es.
    set (p1 := with_pool p (upd (heap p) a a') (next p) (pool p) (log p)).
    set (p2 := if alive then p1 else release a p1).
    assert (Hh : forall j, In j l -> heap p2 j = heap p j).
    { intros j Hj. assert (j <> a) by (intro; subst; contradiction).
      unfold p2. destruct alive; [|rewrite heap_release_other by assumption];
        apply heap_upd_other; assumption. }
    destruct (IH p2 Hnd') as [H1 [H2 H3]].
    destruct (filter_release step l p2) as [kept p3] eqn:Er. cbn [fst snd] in *.
    assert (Hf : forall f : bool -> bool,
               filter (fun o => f (snd (step (heap p2 o)))) l =
               filter (fun o => f (snd (step (heap p o)))) l).
    { intros f. apply filter_ext_in. intros j Hj. rewrite Hh by exact Hj. reflexivity. }
    cbn [filter]. rewrite Es. cbn [snd].
    split; [|split].
    + pose proof (Hf (fun b => b)) as Hid. cbv beta in Hid. rewrite H1, Hid. reflexivity.
    + rewrite H2, (Hf negb). unfold p2, p1.
      destruct alive; cbn [negb].
      * reflexivity.
      * rewrite release_released, <- app_assoc. reflexivity.
    + intros o [<-|Ho] Ha.
      * rewrite Es in Ha |- *. cbn in Ha. subst alive. cbn [fst].
        pose proof (filter_release_heap_notin step l p2 a Hna) as E.
        rewrite Er in E. cbn [snd] in E. rewrite E. unfold p2, p1. cbn. unfold upd.
        rewrite Nat.eqb_refl. reflexivity.
      * rewrite H3 by (try rewrite Hh; assumption). rewrite Hh by exact Ho. reflexivity.
Qed.

(** C10: release(o) stores the reset object at [o] and pushes [o] on the
    free list; the next get() returns [o], leaves the rest of the free list
    as it was and touches no object.  get() on an empty free list returns a
    fresh identity holding a newly created object. *)
Theorem pool_release_get_lifo {A} (p : ObjectPool A) (o : nat) (r : A -> A) :
  resetFn p = Some r ->
  (heap (release o p) o = r (heap p o) /\
   pool (release o p) = pool p ++ [o] /\
   fst (get (release o p)) = o /\
   pool (snd (get (release o p))) = pool p /\
   heap (snd (get (release o p))) = heap (release o p)) /\
  (pool p = [] ->
   fst (get p) = next p /\
   heap (snd (get p)) (next p) = createFn p /\
   next (snd (get p)) = S (next p) /\
   pool (snd (get p)) = []).
Proof.
  intros Hr. split.
  - unfold release, get, upd. rewrite Hr. cbn. rewrite Nat.eqb_refl.
    rewrite rev_app_distr. cbn. rewrite rev_involutive. repeat split; reflexivity.
  - intros Hp. unfold get. rewrite Hp. cbn. unfold upd. rewrite Nat.eqb_refl.
    refine (conj eq_refl (conj eq_refl (conj eq_refl Hp))).
Qed.

Definition example_pool : ObjectPool nat := new_ObjectPool 7%nat (Some (fun _ : nat => 0%nat)) 0.

Lemma pool_release_get_lifo_witness :
  resetFn example_pool = Some (fun _ : nat => 0%nat) /\ pool example_pool = [] /\
  fst (get (release 3 example_pool)) = 3%nat /\ fst (get example_pool) = next example_pool.
Proof.
  split; [reflexivity|]. split; [reflexivity|].
  destruct (pool_release_get_lifo example_pool 3%nat (fun _ : nat => 0%nat) eq_refl) as [[_ [_ [H _]]] H2].
  split; [exact H|]. exact (proj1 (H2 eq_refl)).
Defined.

End PoolProps.

Module SoundProps.
Import Utils Sounds.

(** C5: with the cap of 5 configured and at least 5 sounds active,
    playSound returns normally (no exception) and leaves the manager
    unchanged: no signal is started and nothing is queued. *)
Theorem playSound_at_cap_noop web fb (type : string) (frequency : Q) (m : SoundManager) :
  maxConcurrentSounds m = CONFIG_audio_maxConcurrentSounds ->
  (CONFIG_audio_maxConcurrentSounds <= List.length (activeSounds m))%nat ->
  playSound web fb type frequency m = Ok m.
Proof.
  intros Hmax Hlen. unfold playSound.
  destruct (isEnabled m); [|reflexivity]. cbn.
  rewrite Hmax. apply Nat.leb_le in Hlen. rewrite Hlen. reflexivity.
Qed.

(** Five notes started through the web-audio path leave five sounds active. *)
Definition play_note (m : SoundManager) : SoundManager :=
  match playSound start_signal start_signal "note" 440 m with Ok m' => m' | Throws => m end.

Definition five_playing : SoundManager := Nat.iter 5 play_note new_SoundManager.

Lemma playSound_at_cap_noop_witness :
  List.length (signals five_playing) = 5%nat /\
  playSound start_signal start_signal "note" 440 five_playing = Ok five_playing.
Proof.
  split; [reflexivity|].
  apply playSound_at_cap_noop; [reflexivity | vm_compute; lia].
Defined.

End SoundProps.

Module CapacityProps.
Import Utils PoolProps.

Section WithMath.
Variable Math_PI : Q.
Variable Math_sin Math_cos : Q -> Q.

(** C1: a spawn (ShapeManager.createShape, ParticleSystem.createParticle)
    into a collection within its capacity (15 shapes, 100 particles) keeps
    it within capacity; below capacity it appends the new identity and
    releases nothing; at capacity it removes the first (oldest) identity,
    releases it to the pool, and appends the new one. *)
Theorem spawn_capacity :
  (forall (keyInfo : Shapes.KeyInfo) (m : Shapes.ShapeManager),
     (List.length (Shapes.shapes m) <= CONFIG_shapes_maxActiveShapes)%nat ->
     let (o, m') := Shapes.createShape Math_PI keyInfo m in
     (List.length (Shapes.shapes m') <= CONFIG_shapes_maxActiveShapes)%nat /\
     (List.length (Shapes.shapes m) < CONFIG_shapes_maxActiveShapes ->
        Shapes.shapes m' = Shapes.shapes m ++ [o] /\
        released (log (Shapes.shapePool m')) = released (log (Shapes.shapePool m)))%nat /\
     (List.length (Shapes.shapes m) = CONFIG_shapes_maxActiveShapes ->
        exists oldShape rest, Shapes.shapes m = oldShape :: rest /\
          Shapes.shapes m' = rest ++ [o] /\
          released (log (Shapes.shapePool m')) = released (log (Shapes.shapePool m)) ++ [oldShape])) /\
  (forall (x0 y0 : Q) (options : Particles.ParticleOptions) (s : Particles.ParticleSystem),
     (List.length (Particles.particles s) <= CONFIG_particles_maxActiveParticles)%nat ->
     let (o, s') := Particles.createParticle Math_PI Math_sin Math_cos x0 y0 options s in
     (List.length (Particles.particles s') <= CONFIG_particles_maxActiveParticles)%nat /\
     (List.length (Particles.particles s) < CONFIG_particles_maxActiveParticles ->
        Particles.particles s' = Particles.particles s ++ [o] /\
        released (log (Particles.particlePool s')) = released (log (Particles.particlePool s)))%nat /\
     (List.length (Particles.particles s) = CONFIG_particles_maxActiveParticles ->
        exists oldParticle rest, Particles.particles s = oldParticle :: rest /\
          Particles.particles s' = rest ++ [o] /\
          released (log (Particles.particlePool s')) =
            released (log (Particles.particlePool s)) ++ [oldParticle])).
Proof.
  split.
  - intros keyInfo m Hle. unfold Shapes.createShape. cbv beta.
    destruct (getRandomPosition _ _ _ _) as [pos r1].
    destruct (get (Shapes.shapePool m)) as [o p1] eqn:Hg.
    destruct (Shapes.getShapeType _ _) as [st r2].
    destruct (getRandomColor r2) as [c r3].
    destruct (Shapes.init _ _ _ _ _ _ _ _ _) as [sh r4].
    assert (Hp1 : released (log p1) = released (log (Shapes.shapePool m))).
    { rewrite <- (get_released (Shapes.shapePool m)), Hg. reflexivity. }
    rewrite length_app. cbn [List.length].
    destruct (Nat.ltb CONFIG_shapes_maxActiveShapes (List.length (Shapes.shapes m) + 1)) eqn:Hlt.
    + apply Nat.ltb_lt in Hlt.
      destruct (Shapes.shapes m) as [|oldShape rest] eqn:Hs;
        cbn [app List.length Shapes.shapes Shapes.shapePool] in Hlt, Hle |- *.
      * unfold CONFIG_shapes_maxActiveShapes in Hlt. lia.
      * rewrite release_released, set_obj_log, Hp1.
        rewrite length_app. cbn [List.length].
        split; [lia|]. split; [intros; lia|].
        intros _. exists oldShape, rest. auto.
    + apply Nat.ltb_ge in Hlt. cbn [Shapes.shapes Shapes.shapePool].
      rewrite length_app, set_obj_log, Hp1. cbn [List.length].
      split; [lia|]. split; [auto|]. intros H. unfold CONFIG_shapes_maxActiveShapes in *. lia.
  - intros x0 y0 options s Hle. unfold Particles.createParticle. cbv beta.
    destruct (Nat.leb CONFIG_particles_maxActiveParticles (List.length (Particles.particles s)))
      eqn:Hlt.
    + apply Nat.leb_le in Hlt.
      destruct (Particles.particles s) as [|oldParticle rest] eqn:Hs;
        [unfold CONFIG_particles_maxActiveParticles in Hlt; cbn in Hlt; lia|].
      destruct (get (release oldParticle (Particles.particlePool s))) as [o p2] eqn:Hg.
      destruct (Particles.init _ _ _ _ _ _ _ _) as [v r1].
      assert (Hp2 : released (log p2) = released (log (Particles.particlePool s)) ++ [oldParticle]).
      { pose proof (get_released (release oldParticle (Particles.particlePool s))) as E.
        rewrite Hg in E. cbn [snd] in E. rewrite E, release_released. reflexivity. }
      cbn [Particles.particles Particles.particlePool Particles.with_particles] in Hle |- *.
      rewrite set_obj_log, Hp2, length_app. cbn [List.length] in *.
      split; [lia|]. split; [intros; lia|].
      intros _. exists oldParticle, rest. auto.
    + apply Nat.leb_gt in Hlt.
      destruct (get (Particles.particlePool s)) as [o p2] eqn:Hg.
      destruct (Particles.init _ _ _ _ _ _ _ _) as [v r1].
      assert (Hp2 : released (log p2) = released (log (Particles.particlePool s))).
      { rewrite <- (get_released (Particles.particlePool s)), Hg. reflexivity. }
      cbn [Particles.particles Particles.particlePool Particles.with_particles].
      rewrite set_obj_log, Hp2, length_app. cbn [List.length].
      split; [lia|]. split; [auto|]. intros H. lia.
Qed.

End WithMath.

Definition zero_fn : Q -> Q := fun _ => 0.

Definition spawn_one (s : Particles.ParticleSystem) : nat * Particles.ParticleSystem :=
  Particles.createParticle 0 zero_fn zero_fn 10 10 Particles.no_options s.

(** The identities returned by [n] successive createParticle calls. *)
Fixpoint spawn_particles (n : nat) (s : Particles.ParticleSystem)
    : list nat * Particles.ParticleSystem :=
  match n with
  | O => ([], s)
  | S n' => let (o, s1) := spawn_one s in
            let (os, s2) := spawn_particles n' s1 in (o :: os, s2)
  end.

Definition ps0 : Particles.ParticleSystem := Particles.new_ParticleSystem 800 600 0 [].
Definition ids100 : list nat := fst (spawn_particles 100 ps0).
Definition ps100 : Particles.ParticleSystem := snd (spawn_particles 100 ps0).

(** Particle #101 into a full system: particles #2..#101 stay live. *)
Lemma spawn_capacity_witness :
  List.length (Particles.particles ps100) = 100%nat /\
  Particles.particles (snd (spawn_one ps100)) = tl (ids100 ++ [fst (spawn_one ps100)]) /\
  List.length (Particles.particles (snd (spawn_one ps100))) = 100%nat.
Proof.
  assert (Hlen : List.length (Particles.particles ps100) = 100%nat) by (vm_compute; reflexivity).
  assert (Hids : Particles.particles ps100 = ids100) by (vm_compute; reflexivity).
  pose proof (proj2 (spawn_capacity 0 zero_fn zero_fn) 10 10 Particles.no_options ps100
                (Nat.eq_le_incl _ _ Hlen)) as H.
  unfold spawn_one. destruct (Particles.createParticle _ _ _ _ _ _ ps100) as [o s'].
  destruct H as [Hle [_ H3]]. destruct (H3 Hlen) as [old [rest [E1 [E2 _]]]].
  cbn [fst snd]. split; [exact Hlen|].
  rewrite <- Hids, E1, E2. cbn [app tl]. split; [reflexivity|].
  rewrite E1 in Hlen. rewrite length_app. cbn [List.length] in *. lia.
Defined.

End CapacityProps.

Module UpdateProps.
Import Utils PoolProps.

Lemma filter_filter_and {X} (f g : X -> bool) (l : list X) :
  filter g (filter f l) = filter (fun x => f x && g x) l.
Proof.
  induction l as [|a l IH]; [reflexivity|]. cbn.
  destruct (f a); cbn; [destruct (g a)|]; rewrite ?IH; reflexivity.
Qed.

Section WithMath.
Variable Math_PI : Q.
Variable Math_sin Math_cos : Q -> Q.

(** C3: ShapeManager.update keeps exactly the shapes whose update()
    reports alive and releases the others during the same call;
    ParticleSystem.update (after its constant emission) keeps the particles
    that are alive and within 100 px of the canvas, and during the same call
    releases the expired ones, then the off-screen ones. *)
Theorem update_releases_same_call :
  (forall (deltaTime : Q) (m : Shapes.ShapeManager),
     NoDup (Shapes.shapes m) ->
     let m' := Shapes.update_mgr Math_PI Math_sin deltaTime m in
     let alive o := snd (Shapes.update Math_PI Math_sin (Shapes.clock m) deltaTime
                           (heap (Shapes.shapePool m) o)) in
     Shapes.shapes m' = filter alive (Shapes.shapes m) /\
     released (log (Shapes.shapePool m')) =
       released (log (Shapes.shapePool m)) ++ filter (fun o => negb (alive o)) (Shapes.shapes m)) /\
  (forall (deltaTime : Q) (s : Particles.ParticleSystem),
     let s1 := snd (Particles.createConstantParticles Math_PI Math_sin Math_cos s) in
     NoDup (Particles.particles s1) ->
     let s' := Particles.update_sys Math_PI Math_sin Math_cos deltaTime s in
     let stepped o := Particles.update deltaTime (heap (Particles.particlePool s1) o) in
     Particles.particles s' =
       filter (fun o => snd (stepped o) && negb (Particles.off_screen s1 (fst (stepped o))))
         (Particles.particles s1) /\
     released (log (Particles.particlePool s')) =
       released (log (Particles.particlePool s1)) ++
       filter (fun o => negb (snd (stepped o))) (Particles.particles s1) ++
       filter (fun o => snd (stepped o) && Particles.off_screen s1 (fst (stepped o)))
         (Particles.particles s1)).
Proof.
  split.
  - intros deltaTime m Hnd m' alive.
    destruct (filter_release_spec (Shapes.update Math_PI Math_sin (Shapes.clock m) deltaTime)
                (Shapes.shapes m) (Shapes.shapePool m) Hnd) as [H1 [H2 _]].
    unfold m', Shapes.update_mgr.
    destruct (filter_release _ (Shapes.shapes m) (Shapes.shapePool m)) as [kept p] eqn:E.
    cbn [fst snd] in H1, H2. split; [exact H1 | exact H2].
  - intros deltaTime s. cbv beta zeta. unfold Particles.update_sys.
    destruct (Particles.createConstantParticles _ _ _ s) as [u s1]. cbn [snd]. intros Hnd.
    destruct (filter_release_spec (Particles.update deltaTime) (Particles.particles s1)
                (Particles.particlePool s1) Hnd) as [H1 [H2 H3]].
    destruct (filter_release (Particles.update deltaTime) (Particles.particles s1)
                (Particles.particlePool s1)) as [kept1 p1] eqn:E1.
    cbn [fst snd] in H1, H2, H3.
    assert (Hnd1 : NoDup kept1) by (rewrite H1; apply NoDup_filter; exact Hnd).
    destruct (filter_release_spec (fun p => (p, negb (Particles.off_screen s1 p))) kept1 p1 Hnd1)
      as [G1 [G2 _]].
    destruct (filter_release _ kept1 p1) as [kept2 p2] eqn:E2.
    cbn [fst snd] in G1, G2. cbn [Particles.particles Particles.particlePool Particles.with_particles].
    assert (Hk : forall f : Particles.Particle -> bool,
               filter (fun o => f (heap p1 o)) kept1 =
               filter (fun o => snd (Particles.update deltaTime (heap (Particles.particlePool s1) o)) &&
                                f (fst (Particles.update deltaTime (heap (Particles.particlePool s1) o))))
                 (Particles.particles s1)).
    { intros f. rewrite H1, filter_filter_and. apply filter_ext_in. intros o Ho.
      destruct (snd (Particles.update deltaTime (heap (Particles.particlePool s1) o))) eqn:Ha;
        [|reflexivity].
      cbn [andb]. rewrite H3 by assumption. reflexivity. }
    split.
    + rewrite G1. apply (Hk (fun p => negb (Particles.off_screen s1 p))).
    + rewrite G2, H2, <- app_assoc. f_equal. f_equal.
      rewrite <- (Hk (Particles.off_screen s1)). apply filter_ext. intros o.
      apply negb_involutive.
Qed.

End WithMath.

Definition zero_fn : Q -> Q := fun _ => 0.
Definition key_a : Shapes.KeyInfo := Shapes.Build_KeyInfo "letter" "a" None.

(** Two shapes spawned at time 0, seen by an update at time 5000. *)
Definition sm_two : Shapes.ShapeManager :=
  let m := snd (Shapes.createShape 0 key_a
                  (snd (Shapes.createShape 0 key_a (Shapes.new_ShapeManager 800 600 0 [])))) in
  Shapes.mkShapeManager (Shapes.shapes m) (Shapes.shapePool m) 800 600 5000 [].

Lemma update_releases_same_call_witness :
  NoDup (Shapes.shapes sm_two) /\
  Shapes.shapes (Shapes.update_mgr 0 zero_fn 16 sm_two) = [] /\
  released (log (Shapes.shapePool (Shapes.update_mgr 0 zero_fn 16 sm_two))) =
    released (log (Shapes.shapePool sm_two)) ++ Shapes.shapes sm_two.
Proof.
  assert (Hnd : NoDup (Shapes.shapes sm_two)).
  { apply nodupb_NoDup. vm_compute. reflexivity. }
  destruct (proj1 (update_releases_same_call 0 zero_fn zero_fn) 16 sm_two Hnd) as [H1 H2].
  split; [exact Hnd|]. split.
  - rewrite H1. vm_compute. reflexivity.
  - rewrite H2. f_equal. all: vm_compute; reflexivity.
Defined.

End UpdateProps.

Module ClearProps.
Import Utils PoolProps.

Lemma release_all_pool {A} (l : list nat) (p : ObjectPool A) :
  pool (release_all l p) = pool p ++ l /\
  released (log (release_all l p)) = released (log p) ++ l.
Proof.
  revert p. induction l as [|o l IH]; intros p; cbn [release_all].
  - rewrite !app_nil_r. split; reflexivity.
  - destruct (IH (release o p)) as [H1 H2]. rewrite H1, H2, release_released.
    cbn. rewrite <- !app_assoc. split; reflexivity.
Qed.

Lemma NoDup_swap_app {X} (l1 l2 : list X) : NoDup (l1 ++ l2) -> NoDup (l2 ++ l1).
Proof.
  intros H. apply (Permutation_NoDup (Permutation_app_comm l1 l2)), H.
Qed.

(** C7: for a manager whose live identities and free list are distinct,
    two successive clear() calls leave the live array empty after each
    call, release each live entity exactly once in total (the second call
    releases nothing), and leave a free list without duplicates. *)
Theorem clear_twice :
  (forall m : Shapes.ShapeManager,
     NoDup (Shapes.shapes m ++ pool (Shapes.shapePool m)) ->
     List.length (Shapes.shapes (Shapes.clear m)) = 0%nat /\
     List.length (Shapes.shapes (Shapes.clear (Shapes.clear m))) = 0%nat /\
     released (log (Shapes.shapePool (Shapes.clear (Shapes.clear m)))) =
       released (log (Shapes.shapePool m)) ++ Shapes.shapes m /\
     NoDup (Shapes.shapes m) /\
     NoDup (pool (Shapes.shapePool (Shapes.clear (Shapes.clear m))))) /\
  (forall s : Particles.ParticleSystem,
     NoDup (Particles.particles s ++ pool (Particles.particlePool s)) ->
     List.length (Particles.particles (Particles.clear s)) = 0%nat /\
     List.length (Particles.particles (Particles.clear (Particles.clear s))) = 0%nat /\
     released (log (Particles.particlePool (Particles.clear (Particles.clear s)))) =
       released (log (Particles.particlePool s)) ++ Particles.particles s /\
     NoDup (Particles.particles s) /\
     NoDup (pool (Particles.particlePool (Particles.clear (Particles.clear s))))).
Proof.
  split.
  - intros m Hnd. unfold Shapes.clear, Shapes.with_shapes. cbn [Shapes.shapes Shapes.shapePool].
    destruct (release_all_pool (Shapes.shapes m) (Shapes.shapePool m)) as [P R].
    cbn [release_all]. rewrite R, P.
    repeat split; [apply NoDup_app_remove_r with (pool (Shapes.shapePool m)); exact Hnd|].
    apply NoDup_swap_app, Hnd.
  - intros s Hnd. unfold Particles.clear, Particles.with_particles.
    cbn [Particles.particles Particles.particlePool].
    destruct (release_all_pool (Particles.particles s) (Particles.particlePool s)) as [P R].
    cbn [release_all]. rewrite R, P.
    repeat split; [apply NoDup_app_remove_r with (pool (Particles.particlePool s)); exact Hnd|].
    apply NoDup_swap_app, Hnd.
Qed.

Lemma clear_twice_witness :
  NoDup (Shapes.shapes UpdateProps.sm_two ++ pool (Shapes.shapePool UpdateProps.sm_two)) /\
  List.length (Shapes.shapes (Shapes.clear (Shapes.clear UpdateProps.sm_two))) = 0%nat /\
  released (log (Shapes.shapePool (Shapes.clear (Shapes.clear UpdateProps.sm_two)))) =
    released (log (Shapes.shapePool UpdateProps.sm_two)) ++ [9%nat; 8%nat].
Proof.
  assert (Hnd : NoDup (Shapes.shapes UpdateProps.sm_two ++ pool (Shapes.shapePool UpdateProps.sm_two)))
    by (apply nodupb_NoDup; vm_compute; reflexivity).
  destruct (proj1 clear_twice UpdateProps.sm_two Hnd) as [_ [H2 [H3 _]]].
  split; [exact Hnd|]. split; [exact H2|]. rewrite H3. f_equal. all: vm_compute; reflexivity.
Defined.

End ClearProps.

Module LoopProps.
Import GameLoop.

Lemma step_cases (e : event) (g : Game) :
  (updates (step e g) = updates g /\ lastFrameTime (step e g) = lastFrameTime g) \/
  (exists d, updates (step e g) = updates g ++ [d]).
Proof.
  destruct e as [t|h|]; cbn.
  - unfold gameLoop. destruct (negb (isRunning g) || isPaused g).
    + left. split; reflexivity.
    + right. eexists. reflexivity.
  - left. unfold handleVisibilityChange.
    destruct h; [split; reflexivity|]. destruct (isRunning g); split; reflexivity.
  - left. split; reflexivity.
Qed.

Lemma run_length (es : list event) (g : Game) :
  (List.length (updates g) <= List.length (updates (run es g)))%nat.
Proof.
  revert g. induction es as [|e es IH]; intros g; [cbn; lia|]. cbn [run].
  specialize (IH (step e g)).
  destruct (step_cases e g) as [[H _]|[d H]]; rewrite H in IH;
    [exact IH | rewrite length_app in IH; lia].
Qed.

(** A run with no active frame leaves lastFrameTime where the last active
    frame put it. *)
Lemma run_no_frame_keeps_lastFrameTime (es : list event) (g : Game) :
  updates (run es g) = updates g -> lastFrameTime (run es g) = lastFrameTime g.
Proof.
  revert g. induction es as [|e es IH]; intros g Hu; [reflexivity|]. cbn [run] in *.
  destruct (step_cases e g) as [[H1 H2]|[d H]].
  - rewrite <- H2. apply IH. rewrite Hu, H1. reflexivity.
  - exfalso. pose proof (run_length es (step e g)) as L.
    rewrite Hu, H, length_app in L. cbn in L. lia.
Qed.

(** C2 (amended): frame ticks while paused or hidden record no update and
    leave lastFrameTime unchanged, so the first active tick at time [t]
    after them steps with deltaTime = t - (time of the last active frame),
    which includes the whole paused interval. *)
Theorem first_active_tick_dt (g : Game) (es : list event) (t : Q) :
  updates (run es g) = updates g ->
  isRunning (run es g) = true -> isPaused (run es g) = false ->
  updates (gameLoop t (run es g)) = updates g ++ [t - lastFrameTime g].
Proof.
  intros Hu Hr Hp. unfold gameLoop. rewrite Hr, Hp. cbn.
  rewrite Hu, (run_no_frame_keeps_lastFrameTime es g Hu). reflexivity.
Qed.

(** The last active frame at 1000 ms, the tab hidden right after it, a
    minute of frames while hidden, the tab shown at 61000 ms and the next
    frame at 61016 ms. *)
Definition g_running : Game := mkGame true false false 1000 [].

Definition hidden_minute : list event :=
  [VisibilityChange true] ++ map (fun k => Frame (inject_Z (1000 + 1000 * Z.of_nat k))) (seq 1 60)
  ++ [VisibilityChange false].

Lemma first_active_tick_dt_witness :
  updates (gameLoop 61016 (run hidden_minute g_running)) = [60016].
Proof.
  rewrite (first_active_tick_dt g_running hidden_minute 61016);
    [| vm_compute; reflexivity | vm_compute; reflexivity | vm_compute; reflexivity].
  cbn. unfold Qminus. f_equal.
Defined.

(** C2: the claim fails: after a paused minute the first active tick's
    deltaTime is 60016 ms, far above a frame interval. *)
Lemma pause_resume_dt_counterexample :
  let dts := updates (run (hidden_minute ++ [Frame 61016]) g_running) in
  dts = [60016] /\ ~ (60016 <= maxFrameTime).
Proof.
  cbv zeta. split.
  - vm_compute. reflexivity.
  - unfold maxFrameTime. intros H. apply Qle_bool_iff in H. vm_compute in H. discriminate.
Qed.

End LoopProps.

Module ClampProps.
Import Utils Particles.

(** The identities of the live array [L] and of the free list are distinct
    and below [next]. *)
Definition pool_wf {A} (L : list nat) (p : ObjectPool A) : Prop :=
  NoDup (L ++ pool p) /\ Forall (fun o => (o < next p)%nat) (L ++ pool p).

Lemma Forall_perm {X} (P : X -> Prop) (l1 l2 : list X) :
  Permutation l1 l2 -> Forall P l1 -> Forall P l2.
Proof.
  intros Hp H. rewrite Forall_forall in *. intros a Ha.
  apply H. apply (Permutation_in a (Permutation_sym Hp) Ha).
Qed.

Lemma get_spec {A} (L : list nat) (p : ObjectPool A) :
  pool_wf L p ->
  pool_wf (L ++ [fst (get p)]) (snd (get p)) /\ ~ In (fst (get p)) L /\
  (forall j, j <> fst (get p) -> heap (snd (get p)) j = heap p j).
Proof.
  intros [Hnd Hlt]. unfold get.
  destruct (rev (pool p)) as [|o rest] eqn:E.
  - assert (Hp : pool p = []) by (rewrite <- (rev_involutive (pool p)), E; reflexivity).
    unfold create. cbn [fst snd heap next pool with_pool].
    rewrite Hp, app_nil_r in *.
    assert (Hn : ~ In (next p) L).
    { intro Hin. rewrite Forall_forall in Hlt. specialize (Hlt _ Hin). lia. }
    split; [split|split; [exact Hn|]].
    + rewrite app_nil_r.
      apply (Permutation_NoDup (Permutation_cons_append L (next p))).
      constructor; assumption.
    + rewrite app_nil_r. apply Forall_app. split.
      * apply (Forall_impl _ (fun a (H : (a < next p)%nat) => Nat.lt_lt_succ_r _ _ H) Hlt).
      * constructor; [cbn; lia | constructor].
    + intros j Hj. unfold upd. apply Nat.eqb_neq in Hj. rewrite Hj. reflexivity.
  - assert (Hp : pool p = rev rest ++ [o])
      by (rewrite <- (rev_involutive (pool p)), E; reflexivity).
    cbn [fst snd heap next pool with_pool]. rewrite Hp in Hnd, Hlt.
    assert (Hperm : Permutation (L ++ rev rest ++ [o]) ((L ++ [o]) ++ rev rest)).
    { rewrite <- app_assoc. apply Permutation_app_head, Permutation_app_comm. }
    split; [split|split].
    + exact (Permutation_NoDup Hperm Hnd).
    + exact (Forall_perm _ _ _ Hperm Hlt).
    + assert (Hperm2 : Permutation (L ++ rev rest ++ [o]) (o :: L ++ rev rest)).
      { rewrite app_assoc. apply Permutation_sym, Permutation_cons_append. }
      pose proof (Permutation_NoDup Hperm2 Hnd) as Hnd2.
      inversion Hnd2 as [|? ? Hno _]. intro Hin. apply Hno, in_or_app. left; exact Hin.
    + reflexivity.
Qed.

Lemma release_spec {A} (o : nat) (L : list nat) (p : ObjectPool A) :
  pool_wf (o :: L) p ->
  pool_wf L (release o p) /\ (forall j, j <> o -> heap (release o p) j = heap p j).
Proof.
  intros [Hnd Hlt].
  assert (Hperm : Permutation ((o :: L) ++ pool p) (L ++ pool p ++ [o])).
  { rewrite app_assoc. apply Permutation_cons_append. }
  unfold release. cbn [heap next pool with_pool]. split; [split|].
  - exact (Permutation_NoDup Hperm Hnd).
  - exact (Forall_perm _ _ _ Hperm Hlt).
  - intros j Hj. destruct (resetFn p); [|reflexivity].
    unfold upd. apply Nat.eqb_neq in Hj. rewrite Hj. reflexivity.
Qed.

Lemma pool_wf_of_bool {A} (L : list nat) (p : ObjectPool A) :
  PoolProps.nodupb (L ++ pool p) && forallb (fun o => Nat.ltb o (next p)) (L ++ pool p) = true ->
  pool_wf L p.
Proof.
  intros H. apply andb_prop in H. destruct H as [H1 H2]. split.
  - exact (PoolProps.nodupb_NoDup _ H1).
  - apply Forall_forall. intros o Ho. rewrite forallb_forall in H2.
    apply Nat.ltb_lt, H2, Ho.
Qed.

Lemma st_repeat_inv {S} (I : S -> Prop) (m : St S unit) :
  (forall s, I s -> I (snd (m s))) -> forall n s, I s -> I (snd (st_repeat n m s)).
Proof.
  intros Hm n. induction n as [|n IH]; intros s Hs; cbn [st_repeat].
  - exact Hs.
  - unfold bind. specialize (Hm s Hs). destruct (m s) as [u s1]. apply IH, Hm.
Qed.

Lemma clamp_bounds (a w : Q) : 0 <= w -> 0 <= Math_max 0 (Math_min a w) <= w.
Proof.
  intros Hw. unfold Math_max, Math_min.
  destruct (Qle_bool a w) eqn:E1;
    match goal with |- context [Qle_bool ?b 0] => destruct (Qle_bool b 0) eqn:E2 end;
    qbool; lra.
Qed.

Section WithMath.
Variable Math_PI : Q.
Variable Math_sin Math_cos : Q -> Q.

Lemma init_pos (x0 y0 : Q) (options : ParticleOptions) (old : Particle) (r : list Q) :
  x (fst (init Math_PI Math_sin Math_cos x0 y0 options old r)) = x0 /\
  y (fst (init Math_PI Math_sin Math_cos x0 y0 options old r)) = y0.
Proof.
  unfold init, randomBetween, bind, ret. cbv beta.
  destruct (match opt_isClickParticle options with Some b => b | None => false end);
    repeat match goal with
           | |- context [Math_random ?l] => destruct (Math_random l); cbv beta iota
           end; split; reflexivity.
Qed.

(** The result of a createParticle call: the new particle [o] stands at
    ([x0], [y0]), every other live particle was live before and is
    untouched, and the pool stays well formed. *)
Definition created_at (x0 y0 : Q) (s : ParticleSystem) (res : nat * ParticleSystem) : Prop :=
  let (o, s') := res in
  pool_wf (particles s') (particlePool s') /\
  x (heap (particlePool s') o) = x0 /\ y (heap (particlePool s') o) = y0 /\
  (forall j, In j (particles s') -> j = o \/
     (In j (particles s) /\ heap (particlePool s') j = heap (particlePool s) j)) /\
  canvas_width s' = canvas_width s /\ canvas_height s' = canvas_height s.

Lemma createParticle_tail (ps : list nat) (p1 : ObjectPool Particle) (s : ParticleSystem)
    (x0 y0 : Q) (options : ParticleOptions) :
  pool_wf ps p1 ->
  (forall j, In j ps -> In j (particles s) /\ heap p1 j = heap (particlePool s) j) ->
  created_at x0 y0 s
    (let (o, p2) := get p1 in
     let (v, r1) := init Math_PI Math_sin Math_cos x0 y0 options (heap p2 o) (rng s) in
     (o, with_particles s (ps ++ [o]) (set_obj o v p2) r1)).
Proof.
  intros Hwf Hps. destruct (get_spec ps p1 Hwf) as [Hwf2 [Hno Hh]].
  destruct (get p1) as [o p2]. cbn [fst snd] in *.
  pose proof (init_pos x0 y0 options (heap p2 o) (rng s)) as [Ex Ey].
  destruct (init Math_PI Math_sin Math_cos x0 y0 options (heap p2 o) (rng s)) as [v r1].
  cbn [fst] in Ex, Ey.
  unfold created_at, with_particles, set_obj, with_pool, upd.
  cbn [particles particlePool heap pool next canvas_width canvas_height].
  rewrite Nat.eqb_refl. split; [exact Hwf2|]. split; [exact Ex|]. split; [exact Ey|].
  split; [|split; reflexivity].
  intros j Hj. apply in_app_or in Hj. destruct Hj as [Hj|[Hj|[]]]; [|left; auto].
  right. assert (Hjo : j <> o) by (intro; subst; contradiction).
  apply Nat.eqb_neq in Hjo. rewrite Hjo. rewrite Hh by (apply Nat.eqb_neq; exact Hjo).
  apply Hps, Hj.
Qed.

Lemma createParticle_created (x0 y0 : Q) (options : ParticleOptions) (s : ParticleSystem) :
  pool_wf (particles s) (particlePool s) ->
  created_at x0 y0 s (createParticle Math_PI Math_sin Math_cos x0 y0 options s).
Proof.
  intros H. unfold createParticle.
  destruct (Nat.leb _ _).
  - destruct (particles s) as [|old rest] eqn:Hs.
    + apply (createParticle_tail [] (particlePool s)); [exact H | intros j []].
    + destruct (release_spec old rest _ H) as [Hw Hh].
      apply (createParticle_tail rest (release old (particlePool s))); [exact Hw|].
      intros j Hj. rewrite Hs. split; [right; exact Hj|]. apply Hh.
      intros E; subst j. destruct H as [Hnd _]. inversion Hnd as [|? ? Hno _].
      apply Hno, in_or_app. left; exact Hj.
  - apply (createParticle_tail (particles s) (particlePool s)); [exact H|].
    intros j Hj. split; [exact Hj | reflexivity].
Qed.

(** [created_within P s0 s]: the pool of [s] is well formed, the canvas
    size is that of [s0], and every live particle of [s] either stands at a
    position satisfying [P] or was already live in [s0], in the same state. *)
Definition created_within (P : Q -> Q -> Prop) (s0 s : ParticleSystem) : Prop :=
  pool_wf (particles s) (particlePool s) /\
  canvas_width s = canvas_width s0 /\ canvas_height s = canvas_height s0 /\
  forall j, In j (particles s) ->
    P (x (heap (particlePool s) j)) (y (heap (particlePool s) j)) \/
    (In j (particles s0) /\ heap (particlePool s) j = heap (particlePool s0) j).

Lemma created_within_refl (P : Q -> Q -> Prop) (s : ParticleSystem) :
  pool_wf (particles s) (particlePool s) -> created_within P s s.
Proof.
  intros H. split; [exact H|]. split; [reflexivity|]. split; [reflexivity|].
  intros j Hj. right. split; [exact Hj | reflexivity].
Qed.

Lemma created_within_createParticle (P : Q -> Q -> Prop) (s0 s : ParticleSystem)
    (x0 y0 : Q) (options : ParticleOptions) :
  created_within P s0 s -> P x0 y0 ->
  created_within P s0 (snd (createParticle Math_PI Math_sin Math_cos x0 y0 options s)).
Proof.
  intros [Hw [Hcw [Hch Hj]]] HP.
  pose proof (createParticle_created x0 y0 options s Hw) as C.
  destruct (createParticle Math_PI Math_sin Math_cos x0 y0 options s) as [o s'].
  cbn [snd]. destruct C as [Hw' [Ex [Ey [Hall [Hcw' Hch']]]]].
  split; [exact Hw'|]. split; [congruence|]. split; [congruence|].
  intros j Hjin. destruct (Hall j Hjin) as [->|[Hin Heq]].
  - left. rewrite Ex, Ey. exact HP.
  - rewrite Heq. exact (Hj j Hin).
Qed.

Lemma unit_draw (l : list Q) :
  Forall (fun q => 0 <= q < 1) l ->
  0 <= fst (Math_random l) < 1 /\ Forall (fun q => 0 <= q < 1) (snd (Math_random l)).
Proof.
  intros H. destruct l as [|r l]; cbn.
  - split; [lra | constructor].
  - inversion H; subst. split; assumption.
Qed.

Lemma randomBetween_inside (lo hi : Q) (l : list Q) :
  Forall (fun q => 0 <= q < 1) l -> lo <= hi ->
  lo <= fst (randomBetween lo hi l) <= hi.
Proof.
  intros Hl Hle. destruct (unit_draw l Hl) as [[R0 R1] _].
  unfold randomBetween, bind, ret. destruct (Math_random l) as [r l']. cbn [fst] in *.
  assert (0 <= r * (hi - lo)) by (apply Qmult_le_0_compat; lra).
  assert (r * (hi - lo) <= hi - lo).
  { setoid_replace (hi - lo) with (1 * (hi - lo)) at 2 by ring.
    apply Qmult_le_compat_r; lra. }
  lra.
Qed.

(** getRandomPosition(w, h, padding) for draws in [0, 1) and a rectangle at
    least twice the padding wide and high. *)
Lemma getRandomPosition_draws (w h pad : Q) (l : list Q) :
  Forall (fun q => 0 <= q < 1) l -> 2 * pad <= w -> 2 * pad <= h ->
  pad <= pos_x (fst (getRandomPosition w h pad l)) <= w - pad /\
  pad <= pos_y (fst (getRandomPosition w h pad l)) <= h - pad.
Proof.
  intros Hl Hw Hh.
  pose proof (randomBetween_inside pad (w - pad) l Hl ltac:(lra)) as Hx.
  assert (Hl1 : Forall (fun q => 0 <= q < 1) (snd (randomBetween pad (w - pad) l))).
  { unfold randomBetween, bind, ret. pose proof (unit_draw l Hl) as [_ F].
    destruct (Math_random l); exact F. }
  unfold getRandomPosition, bind, ret.
  destruct (randomBetween pad (w - pad) l) as [px l1]. cbn [fst snd] in *.
  pose proof (randomBetween_inside pad (h - pad) l1 Hl1 ltac:(lra)) as Hy.
  destruct (randomBetween pad (h - pad) l1) as [py l2]. cbn [fst snd pos_x pos_y] in *.
  split; assumption.
Qed.

Lemma shape_initEffect_pos (s : Shapes.Shape) (r : list Q) :
  Shapes.x (fst (Shapes.initEffect Math_PI s r)) = Shapes.x s /\
  Shapes.y (fst (Shapes.initEffect Math_PI s r)) = Shapes.y s.
Proof.
  unfold Shapes.initEffect, bind, ret.
  destruct (String.eqb _ "explosion"); [split; reflexivity|].
  destruct (String.eqb _ "fireworks"); [split; reflexivity|].
  destruct (String.eqb _ "sparkle").
  { unfold Shapes.initSparkles, bind.
    destruct (randomIntBetween 5 10 r) as [n r1].
    match goal with
    | |- context [let (l, r') := ?e in (Shapes.set_sparkles s l, r')] => destruct e as [l r2]
    end.
    split; reflexivity. }
  destruct (String.eqb _ "rainbow"); [split; reflexivity|].
  destruct (String.eqb _ "star"); [|split; reflexivity].
  destruct (randomBetween 20 40 r) as [bh r1].
  destruct (randomBetween (5#100) (1#10) r1) as [bs r2].
  split; reflexivity.
Qed.

Lemma shape_init_pos (now x0 y0 : Q) ty c e (old : Shapes.Shape) (r : list Q) :
  Shapes.x (fst (Shapes.init Math_PI now x0 y0 ty c e old r)) = x0 /\
  Shapes.y (fst (Shapes.init Math_PI now x0 y0 ty c e old r)) = y0.
Proof.
  unfold Shapes.init, bind.
  destruct (randomBetween _ _ r) as [ms r1].
  destruct (randomBetween _ _ r1) as [rot r2].
  destruct (randomBetween _ _ r2) as [rs r3].
  match goal with
  | |- context [Shapes.initEffect _ ?s ?l] => exact (shape_initEffect_pos s l)
  end.
Qed.

(** The shape createShape(keyInfo) returns is live, stands inside the
    rectangle inset by CONFIG.shapes.maxSize, and the pool stays well
    formed. *)
Lemma createShape_inside (keyInfo : Shapes.KeyInfo) (m : Shapes.ShapeManager) :
  Forall (fun q => 0 <= q < 1) (Shapes.rng m) ->
  2 * CONFIG_shapes_maxSize <= Shapes.rect_width m ->
  2 * CONFIG_shapes_maxSize <= Shapes.rect_height m ->
  pool_wf (Shapes.shapes m) (Shapes.shapePool m) ->
  let res := Shapes.createShape Math_PI keyInfo m in
  let sh := heap (Shapes.shapePool (snd res)) (fst res) in
  In (fst res) (Shapes.shapes (snd res)) /\
  pool_wf (Shapes.shapes (snd res)) (Shapes.shapePool (snd res)) /\
  CONFIG_shapes_maxSize <= Shapes.x sh <= Shapes.rect_width m - CONFIG_shapes_maxSize /\
  CONFIG_shapes_maxSize <= Shapes.y sh <= Shapes.rect_height m - CONFIG_shapes_maxSize.
Proof.
  intros Hr Hw Hh Hwf. unfold Shapes.createShape.
  pose proof (getRandomPosition_draws _ _ _ (Shapes.rng m) Hr Hw Hh) as [Px Py].
  destruct (getRandomPosition _ _ _ (Shapes.rng m)) as [position r1]. cbn [fst] in Px, Py.
  destruct (get_spec _ _ Hwf) as [Hwf2 [Hno _]].
  destruct (get (Shapes.shapePool m)) as [o p1]. cbn [fst snd] in *.
  destruct (Shapes.getShapeType keyInfo r1) as [st r2].
  destruct (getRandomColor r2) as [c r3].
  match goal with
  | |- context [Shapes.init Math_PI ?now ?a ?b st c ?e ?old r3] =>
      pose proof (shape_init_pos now a b st c e old r3) as [Ix Iy];
      destruct (Shapes.init Math_PI now a b st c e old r3) as [v r4]
  end.
  cbn [fst] in Ix, Iy.
  assert (Hv : heap (set_obj o v p1) o = v).
  { unfold set_obj, with_pool, upd. cbn [heap]. rewrite Nat.eqb_refl. reflexivity. }
  assert (Hwf3 : pool_wf (Shapes.shapes m ++ [o]) (set_obj o v p1)) by exact Hwf2.
  destruct (Nat.ltb CONFIG_shapes_maxActiveShapes (List.length (Shapes.shapes m ++ [o]))) eqn:L.
  - destruct (Shapes.shapes m) as [|a t] eqn:Es.
    + cbn in L. discriminate.
    + cbn [app] in *. destruct (release_spec a (t ++ [o]) _ Hwf3) as [Hw' Hh'].
      assert (Hoa : o <> a) by (intros ->; apply Hno; left; reflexivity).
      cbn [fst snd Shapes.shapes Shapes.shapePool Shapes.rect_width Shapes.rect_height].
      rewrite (Hh' o Hoa), Hv, Ix, Iy.
      split; [apply in_or_app; right; left; reflexivity|]. split; [exact Hw'|]. tauto.
  - cbn [fst snd Shapes.shapes Shapes.shapePool Shapes.rect_width Shapes.rect_height].
    rewrite Hv, Ix, Iy.
    split; [apply in_or_app; right; left; reflexivity|]. split; [exact Hwf3|]. tauto.
Qed.

(** The coordinate createConstantParticles computes,
    Math.max(0, Math.min(mouse + d, size)) for a canvas size >= 0: NaN for a
    NaN mouse coordinate, and otherwise (finite or infinite) a number of
    [0, size]; for a finite mouse coordinate it is the value the Q model of
    createConstantParticles computes. *)
Lemma constant_emission_coord_spec (mouse : JsNumbers.number) (d size : Q) :
  0 <= size ->
  (mouse = JsNumbers.NaN -> JsNumbers.constant_emission_coord mouse d size = JsNumbers.NaN) /\
  (mouse <> JsNumbers.NaN -> exists c,
     JsNumbers.constant_emission_coord mouse d size = JsNumbers.Fin c /\ 0 <= c <= size) /\
  (forall a, mouse = JsNumbers.Fin a ->
     JsNumbers.constant_emission_coord mouse d size =
       JsNumbers.Fin (Math_max 0 (Math_min (a + d) size))).
Proof.
  intros Hs. destruct mouse as [a| | |]; cbn.
  - split; [discriminate|]. split.
    + intros _. eexists. split; [reflexivity|]. apply clamp_bounds, Hs.
    + intros a' E. injection E as <-. reflexivity.
  - split; [discriminate|]. split; [|discriminate].
    intros _. eexists. split; [reflexivity|]. unfold Math_max.
    destruct (Qle_bool size 0) eqn:E; qbool; lra.
  - split; [discriminate|]. split; [|discriminate].
    intros _. eexists. split; [reflexivity|]. lra.
  - split; [reflexivity|]. split; [congruence | discriminate].
Qed.

(** C8 (amended): only the constant emission clamps.  Every particle that
    createConstantParticles() creates stands inside the canvas
    [0, canvas.width] x [0, canvas.height] (for a canvas of non-negative
    size), whatever the numeric mouse position; the clamp
    Math.max(0, Math.min(v, size)) it applies keeps any number, infinite
    ones included, in [0, size], but turns a NaN coordinate into NaN.
    Every particle that createClickEffect(x, y, button) creates stands
    exactly at the supplied (x, y), in range or not.  createShape(keyInfo)
    takes no position: for draws of Math.random() in [0, 1) and a canvas
    rectangle at least 2 * CONFIG.shapes.maxSize wide and high, the shape it
    returns is live and stands inside the rectangle inset by
    CONFIG.shapes.maxSize.  Live particles that a call does not create keep
    their state, and the pools stay well formed. *)
Theorem particle_creation_positions :
  (forall s : ParticleSystem,
     0 <= canvas_width s -> 0 <= canvas_height s ->
     pool_wf (particles s) (particlePool s) ->
     created_within (fun a b => 0 <= a <= canvas_width s /\ 0 <= b <= canvas_height s) s
       (snd (createConstantParticles Math_PI Math_sin Math_cos s))) /\
  (forall (x0 y0 : Q) (button : Z) (s : ParticleSystem),
     pool_wf (particles s) (particlePool s) ->
     created_within (fun a b => a = x0 /\ b = y0) s
       (snd (createClickEffect Math_PI Math_sin Math_cos x0 y0 button s))) /\
  (forall (keyInfo : Shapes.KeyInfo) (m : Shapes.ShapeManager),
     Forall (fun q => 0 <= q < 1) (Shapes.rng m) ->
     2 * CONFIG_shapes_maxSize <= Shapes.rect_width m ->
     2 * CONFIG_shapes_maxSize <= Shapes.rect_height m ->
     pool_wf (Shapes.shapes m) (Shapes.shapePool m) ->
     let res := Shapes.createShape Math_PI keyInfo m in
     let sh := heap (Shapes.shapePool (snd res)) (fst res) in
     In (fst res) (Shapes.shapes (snd res)) /\
     pool_wf (Shapes.shapes (snd res)) (Shapes.shapePool (snd res)) /\
     CONFIG_shapes_maxSize <= Shapes.x sh <= Shapes.rect_width m - CONFIG_shapes_maxSize /\
     CONFIG_shapes_maxSize <= Shapes.y sh <= Shapes.rect_height m - CONFIG_shapes_maxSize) /\
  (forall (mouse : JsNumbers.number) (d size : Q), 0 <= size ->
     (mouse = JsNumbers.NaN ->
      JsNumbers.constant_emission_coord mouse d size = JsNumbers.NaN) /\
     (mouse <> JsNumbers.NaN -> exists c,
      JsNumbers.constant_emission_coord mouse d size = JsNumbers.Fin c /\ 0 <= c <= size) /\
     (forall a, mouse = JsNumbers.Fin a ->
      JsNumbers.constant_emission_coord mouse d size =
        JsNumbers.Fin (Math_max 0 (Math_min (a + d) size)))).
Proof.
  split; [|split; [|split; [exact createShape_inside | exact constant_emission_coord_spec]]].
  - intros s Hw Hh Hwf. unfold createConstantParticles. cbv zeta.
    destruct (Qltb _ _); [exact (created_within_refl _ s Hwf)|].
    destruct (randomIntBetween 1 3 _) as [n r1].
    apply st_repeat_inv; [|exact (created_within_refl _ s Hwf)].
    intros s2 H2. cbv beta.
    destruct (randomBetween 0 (Math_PI * 2) (rng s2)) as [angle ra].
    destruct (randomBetween 10 50 ra) as [distance rb].
    destruct (Math_random rb) as [rt rc].
    match goal with
    | |- context [createParticle _ _ _ ?a ?b ?o ?st] =>
        pose proof (created_within_createParticle
                      (fun u v => 0 <= u <= canvas_width s /\ 0 <= v <= canvas_height s)
                      s st a b o) as Hc;
        destruct (createParticle Math_PI Math_sin Math_cos a b o st) as [o' s3]
    end.
    cbn [snd] in *. apply Hc; [exact H2|].
    destruct H2 as [_ [Hcw [Hch _]]]. rewrite <- Hcw, <- Hch.
    split; apply clamp_bounds; congruence.
  - intros x0 y0 button s Hwf. unfold createClickEffect.
    lazymatch goal with
    | |- created_within _ _ (snd (match ?e with pair _ _ => _ end)) => destruct e as [ei pts]
    end.
    apply st_repeat_inv; [|exact (created_within_refl _ s Hwf)].
    intros s2 H2. cbv beta.
    destruct (Math_random (rng s2)) as [rt r1].
    match goal with
    | |- context [createParticle _ _ _ ?a ?b ?o ?st] =>
        pose proof (created_within_createParticle (fun u v => u = x0 /\ v = y0)
                      s st a b o) as Hc;
        destruct (createParticle Math_PI Math_sin Math_cos a b o st) as [o' s3]
    end.
    cbn [snd] in *. apply Hc; [exact H2 | split; reflexivity].
Qed.

End WithMath.

(** Concrete stand-ins for Math.PI, Math.sin and Math.cos (low-order
    polynomials); the positions below do not depend on them. *)
Definition cex_PI : Q := 355 # 113.
Definition cex_sin (a : Q) : Q := a - a * a * a / 6.
Definition cex_cos (a : Q) : Q := 1 - a * a / 2.

(** A fresh 800 x 600 system, 1 s after start, mouse at the centre. *)
Definition ps_c : ParticleSystem :=
  new_ParticleSystem 800 600 1000 [1#2; 1#4; 3#4; 1#3; 2#3; 1#5; 4#5; 1#7].

(** A fresh 800 x 600 shape manager, 1 s after start, with eight draws. *)
Definition sm_c : Shapes.ShapeManager :=
  Shapes.new_ShapeManager 800 600 1000 [1#3; 9#10; 1#2; 1#4; 3#4; 1#5; 4#5; 1#7].

Definition shape_key_a : Shapes.KeyInfo :=
  {| Shapes.key_type := "letter"; Shapes.character := "a"; Shapes.key_effect := Some "normal" |}%string.

Lemma particle_creation_positions_witness :
  (0 <= canvas_width ps_c /\ 0 <= canvas_height ps_c /\
   pool_wf (particles ps_c) (particlePool ps_c) /\
   created_within (fun a b => 0 <= a <= canvas_width ps_c /\ 0 <= b <= canvas_height ps_c) ps_c
     (snd (createConstantParticles cex_PI cex_sin cex_cos ps_c))) /\
  (pool_wf (particles ps_c) (particlePool ps_c) /\
   created_within (fun a b => a = -50 /\ b = -50) ps_c
     (snd (createClickEffect cex_PI cex_sin cex_cos (-50) (-50) 0 ps_c))) /\
  (Forall (fun q => 0 <= q < 1) (Shapes.rng sm_c) /\
   2 * CONFIG_shapes_maxSize <= Shapes.rect_width sm_c /\
   2 * CONFIG_shapes_maxSize <= Shapes.rect_height sm_c /\
   pool_wf (Shapes.shapes sm_c) (Shapes.shapePool sm_c) /\
   (let res := Shapes.createShape cex_PI shape_key_a sm_c in
    let sh := heap (Shapes.shapePool (snd res)) (fst res) in
    In (fst res) (Shapes.shapes (snd res)) /\
    pool_wf (Shapes.shapes (snd res)) (Shapes.shapePool (snd res)) /\
    CONFIG_shapes_maxSize <= Shapes.x sh <= Shapes.rect_width sm_c - CONFIG_shapes_maxSize /\
    CONFIG_shapes_maxSize <= Shapes.y sh <= Shapes.rect_height sm_c - CONFIG_shapes_maxSize)) /\
  (0 <= 800 /\
   (JsNumbers.NaN = JsNumbers.NaN ->
    JsNumbers.constant_emission_coord JsNumbers.NaN 10 800 = JsNumbers.NaN) /\
   (JsNumbers.NaN <> JsNumbers.NaN -> exists c,
    JsNumbers.constant_emission_coord JsNumbers.NaN 10 800 = JsNumbers.Fin c /\ 0 <= c <= 800) /\
   (forall a, JsNumbers.NaN = JsNumbers.Fin a ->
    JsNumbers.constant_emission_coord JsNumbers.NaN 10 800 =
      JsNumbers.Fin (Math_max 0 (Math_min (a + 10) 800)))).
Proof.
  assert (Hw : 0 <= canvas_width ps_c) by (vm_compute; discriminate).
  assert (Hh : 0 <= canvas_height ps_c) by (vm_compute; discriminate).
  assert (Hwf : pool_wf (particles ps_c) (particlePool ps_c))
    by (apply pool_wf_of_bool; vm_compute; reflexivity).
  assert (Sr : Forall (fun q => 0 <= q < 1) (Shapes.rng sm_c))
    by (repeat constructor; vm_compute; discriminate).
  assert (Sw : 2 * CONFIG_shapes_maxSize <= Shapes.rect_width sm_c) by (vm_compute; discriminate).
  assert (Sh : 2 * CONFIG_shapes_maxSize <= Shapes.rect_height sm_c) by (vm_compute; discriminate).
  assert (Swf : pool_wf (Shapes.shapes sm_c) (Shapes.shapePool sm_c))
    by (apply pool_wf_of_bool; vm_compute; reflexivity).
  destruct (particle_creation_positions cex_PI cex_sin cex_cos) as [H1 [H2 [H3 H4]]].
  split; [|split; [|split]].
  - split; [exact Hw|]. split; [exact Hh|]. split; [exact Hwf|].
    exact (H1 ps_c Hw Hh Hwf).
  - split; [exact Hwf|]. exact (H2 (-50) (-50) 0%Z ps_c Hwf).
  - split; [exact Sr|]. split; [exact Sw|]. split; [exact Sh|]. split; [exact Swf|].
    exact (H3 shape_key_a sm_c Sr Sw Sh Swf).
  - split; [lra|]. exact (H4 JsNumbers.NaN 10 800 ltac:(lra)).
Defined.

(** C8, counterexample: a left click at (-50, -50), outside the 800 x 600
    canvas, creates a live particle at x = -50: createClickEffect does not
    clamp. *)
Lemma click_effect_unclamped_counterexample :
  let s' := snd (createClickEffect cex_PI cex_sin cex_cos (-50) (-50) 0 ps_c) in
  In 49%nat (particles s') /\ x (heap (particlePool s') 49%nat) = -50 /\
  ~ (0 <= -50 <= canvas_width ps_c).
Proof.
  cbv zeta. split; [vm_compute; tauto|]. split; [vm_compute; reflexivity|].
  unfold ps_c, new_ParticleSystem. cbn [canvas_width]. lra.
Qed.

End ClampProps.

Module PhysicsProps.
Import Utils Particles.

(** The physics step in the order the spec describes, for a scale
    constant [k]: vy += gravity*dt*k; vx *= friction; vy *= friction;
    x += vx*dt*k; y += vy*dt*k.  Result: (x, y, vx, vy). *)
Definition spec_physics_step (k deltaTime : Q) (p : Particle) : Q * Q * Q * Q :=
  let vy1 := vy p + gravity p * deltaTime * k in
  let vx2 := vx p * friction p in
  let vy2 := vy1 * friction p in
  (x p + vx2 * deltaTime * k, y p + vy2 * deltaTime * k, vx2, vy2).

Lemma random_draw_range (l : list Q) :
  Forall (fun q => 0 <= q < 1) l ->
  0 <= fst (Math_random l) < 1 /\ Forall (fun q => 0 <= q < 1) (snd (Math_random l)).
Proof.
  intros H. destruct l as [|r l]; cbn.
  - split; [lra | constructor].
  - inversion H; subst. split; assumption.
Qed.

(** Take the next draws of the random stream, keeping their range. *)
Ltac draws :=
  repeat match goal with
  | F : Forall _ ?l |- context [Math_random ?l] =>
      let r := fresh "r" in let l' := fresh "l" in let E := fresh "E" in
      let R := fresh "R" in let F' := fresh "F" in
      destruct (random_draw_range l F) as [R F'];
      destruct (Math_random l) as [r l'] eqn:E;
      try rewrite E in R, F'; cbn [fst snd] in R, F'; cbv beta iota
  end.

Section WithMath.
Variable Math_PI : Q.
Variable Math_sin Math_cos : Q -> Q.

(** C9 (amended): an active particle's update moves the position with the
    velocities from before the step (x += vx*dt*0.06, y += vy*dt*0.06), then
    sets vy to (vy + gravity*dt*0.06)*friction and vx to vx*friction; for
    draws of Math.random() in [0, 1), init() draws gravity from
    [0.02, 0.08) for a click particle and from [0.05, 0.15) otherwise, so
    gravity > 0, and friction from [0.95, 0.99), inside (0, 1). *)
Theorem particle_physics_step (deltaTime : Q) (p : Particle)
    (x0 y0 : Q) (options : ParticleOptions) (old : Particle) (r : list Q) :
  isActive p = true ->
  Forall (fun q => 0 <= q < 1) r ->
  (let p' := fst (update deltaTime p) in
   x p' = x p + vx p * deltaTime * (6#100) /\
   y p' = y p + vy p * deltaTime * (6#100) /\
   vx p' = vx p * friction p /\
   vy p' = (vy p + gravity p * deltaTime * (6#100)) * friction p) /\
  (let q := fst (init Math_PI Math_sin Math_cos x0 y0 options old r) in
   (if match opt_isClickParticle options with Some b => b | None => false end
    then 2#100 <= gravity q < 8#100 else 5#100 <= gravity q < 15#100) /\
   95#100 <= friction q < 99#100 /\
   0 < gravity q /\ 0 < friction q < 1).
Proof.
  intros Ha Hr. split.
  - unfold update. rewrite Ha. cbn [negb].
    destruct (Qle_bool _ 0 || Qle_bool _ 0); cbn; repeat split.
  - unfold init, randomBetween, bind, ret. cbv beta.
    destruct (match opt_isClickParticle options with Some b => b | None => false end);
      draws; cbn; repeat split; lra.
Qed.

End WithMath.
(** A freshly created constant-emission particle: the random stream gives
    maxLife 1000, maxSize 11/2, vx 0, vy 0, gravity 1/10, friction 97/100. *)
Definition stream_c : list Q := [0; 1#2; 1#2; 4#5; 1#2; 1#2; 0; 1#2].

Definition p_c : Particle :=
  fst (init 0 (fun _ => 0) (fun _ => 0) 0 0 no_options new_Particle stream_c).

Lemma p_c_fields :
  x p_c = 0 /\ y p_c = 0 /\ vx p_c == 0 /\ vy p_c == 0 /\
  gravity p_c == (1#10) /\ friction p_c == (97#100) /\ isActive p_c = true.
Proof. vm_compute. repeat split; reflexivity. Qed.

Lemma p_c_step :
  y (fst (update 16 p_c)) == 0 /\ vy (fst (update 16 p_c)) == (1164#12500).
Proof. vm_compute. split; reflexivity. Qed.

Lemma particle_physics_step_witness :
  isActive p_c = true /\ Forall (fun q => 0 <= q < 1) stream_c /\
  ((let p' := fst (update 16 p_c) in
    x p' = x p_c + vx p_c * 16 * (6#100) /\
    y p' = y p_c + vy p_c * 16 * (6#100) /\
    vx p' = vx p_c * friction p_c /\
    vy p' = (vy p_c + gravity p_c * 16 * (6#100)) * friction p_c) /\
   (let q := fst (init 0 (fun _ => 0) (fun _ => 0) 0 0 no_options new_Particle stream_c) in
    (if match opt_isClickParticle no_options with Some b => b | None => false end
     then 2#100 <= gravity q < 8#100 else 5#100 <= gravity q < 15#100) /\
    95#100 <= friction q < 99#100 /\
    0 < gravity q /\ 0 < friction q < 1)).
Proof.
  assert (Ha : isActive p_c = true) by (vm_compute; reflexivity).
  assert (Hr : Forall (fun q => 0 <= q < 1) stream_c)
    by (repeat constructor; vm_compute; discriminate).
  split; [exact Ha | split; [exact Hr |]].
  exact (particle_physics_step 0 (fun _ => 0) (fun _ => 0) 16 p_c 0 0 no_options
           new_Particle stream_c Ha Hr).
Defined.

(** C9, counterexample: on the particle [p_c] above and a 16 ms step, no
    scale constant [k] makes the spec's order agree with update(): the code
    moves the position with the velocities from before the step (y stays 0),
    while the spec order needs k = 6/100 for vy and then moves y by a
    non-zero amount. *)
Lemma particle_step_order_counterexample :
  ~ (exists k : Q,
       let '(_, y', _, vy') := spec_physics_step k 16 p_c in
       y' == y (fst (update 16 p_c)) /\ vy' == vy (fst (update 16 p_c))).
Proof.
  intros [k Hk0]. revert Hk0. destruct p_c_fields as (Hx & Hy & Hvx & Hvy & Hg & Hf & _).
  destruct p_c_step as [Hy' Hvy'].
  unfold spec_physics_step. cbv zeta. intros [E1 E2].
  rewrite Hy', Hy in E1. rewrite Hvy', Hvy, Hg, Hf in E2.
  assert (Hk : k == (6#100)) by lra.
  rewrite Hk, Hvy, Hg, Hf in E1. vm_compute in E1. discriminate.
Qed.

End PhysicsProps.

Module UtilsProps.
Import Utils.

(** Case analysis on every comparison of the code in the goal. *)
Ltac qsplit :=
  repeat match goal with
  | |- context [Qle_bool ?a ?b] =>
      let E := fresh "E" in destruct (Qle_bool a b) eqn:E; cbv beta iota in *
  | H : context [if Qle_bool ?a ?b then _ else _] |- _ =>
      let E := fresh "E" in destruct (Qle_bool a b) eqn:E; cbv beta iota in *
  end; qbool.

Lemma sq_le (u a : Q) : - a <= u -> u <= a -> u * u <= a * a.
Proof. intros. assert (0 <= (a - u) * (a + u)) by (apply Qmult_le_0_compat; lra). lra. Qed.

Lemma sq_nonneg (u : Q) : 0 <= u * u.
Proof. nra. Qed.

Lemma cube_unit (u : Q) : 0 <= u <= 1 -> 0 <= u * u * u <= 1.
Proof. intros [H0 H1]. assert (A : 0 <= u * u) by nra. assert (B : u * u <= 1) by nra. nra. Qed.

Lemma cube_mono (a b : Q) : 0 <= a <= b -> a * a * a <= b * b * b.
Proof. intros [H0 H1]. assert (a * a <= b * b) by nra. assert (0 <= a * a) by nra. nra. Qed.

(** One parabola of easeBounce: 7.5625 * (t - c)^2 + k for t within [a] of [c]. *)
Lemma bounce_piece (t c a k : Q) :
  c - a <= t -> t <= c + a ->
  k <= (121 # 16) * (t - c) * (t - c) + k <= (121 # 16) * (a * a) + k.
Proof.
  intros H1 H2. pose proof (sq_nonneg (t - c)).
  assert ((t - c) * (t - c) <= a * a) by (apply sq_le; lra).
  split; nra.
Qed.

(** [X1] clamp(value, min, max) lies in [min, max] when min <= max, and
    returns value itself when value is already in range. *)
Theorem clamp_range (v lo hi : Q) (H : lo <= hi) :
  lo <= clamp v lo hi <= hi /\ (lo <= v <= hi -> clamp v lo hi == v).
Proof.
  unfold clamp, Math_min, Math_max. qsplit; split; try split; try intros [? ?]; lra.
Qed.

Lemma clamp_range_witness : (0 <= 10) /\ (0 <= clamp 25 0 10 <= 10 /\ (0 <= 25 <= 10 -> clamp 25 0 10 == 25)).
Proof. split; [lra | apply (clamp_range 25 0 10); lra]. Defined.

(** [X2] With min > max, clamp(value, min, max) returns max, whatever value is. *)
Theorem clamp_inverted (v lo hi : Q) (H : hi < lo) : clamp v lo hi == hi.
Proof. unfold clamp, Math_min, Math_max. qsplit; lra. Qed.

Lemma clamp_inverted_witness : (3 < 5) /\ clamp (-7) 5 3 == 3.
Proof. split; [lra | apply (clamp_inverted (-7) 5 3); lra]. Defined.

(** [X3] lerp(start, end, factor) gives start at factor 0, end at factor 1,
    and a value between start and end for every factor in [0, 1]. *)
Theorem lerp_between (a b f : Q) (H : 0 <= f <= 1) :
  lerp a b 0 == a /\ lerp a b 1 == b /\ Math_min a b <= lerp a b f <= Math_max a b.
Proof.
  unfold lerp, Math_min, Math_max. split; [ring|]. split; [ring|].
  destruct (Qle_bool a b) eqn:E; destruct (Qle_bool b a) eqn:F; qbool.
  all: destruct (Qlt_le_dec b a) as [L|L].
  all: first [ assert (P1 : 0 <= (a - b) * f) by (apply Qmult_le_0_compat; lra);
               assert (P2 : 0 <= (a - b) * (1 - f)) by (apply Qmult_le_0_compat; lra)
             | assert (P1 : 0 <= (b - a) * f) by (apply Qmult_le_0_compat; lra);
               assert (P2 : 0 <= (b - a) * (1 - f)) by (apply Qmult_le_0_compat; lra) ].
  all: split; lra.
Qed.

Lemma lerp_between_witness :
  (0 <= 1 # 4 <= 1) /\
  (lerp 8 (-4) 0 == 8 /\ lerp 8 (-4) 1 == -4 /\
   Math_min 8 (-4) <= lerp 8 (-4) (1 # 4) <= Math_max 8 (-4)).
Proof. split; [lra | apply (lerp_between 8 (-4) (1 # 4)); lra]. Defined.

(** [X4] easeOut maps 0 to 0 and 1 to 1, and is non-decreasing from [0, 1]
    into [0, 1]. *)
Theorem easeOut_monotone (t1 t2 : Q) (H0 : 0 <= t1) (H1 : t1 <= t2) (H2 : t2 <= 1) :
  easeOut 0 == 0 /\ easeOut 1 == 1 /\ 0 <= easeOut t1 <= easeOut t2 /\ easeOut t2 <= 1.
Proof.
  unfold easeOut. split; [ring|]. split; [ring|].
  assert (0 <= (1 - t1) * (1 - t1) * (1 - t1) <= 1) by (apply cube_unit; lra).
  assert ((1 - t2) * (1 - t2) * (1 - t2) <= (1 - t1) * (1 - t1) * (1 - t1))
    by (apply cube_mono; lra).
  assert (0 <= (1 - t2) * (1 - t2) * (1 - t2) <= 1) by (apply cube_unit; lra).
  split; [split|]; lra.
Qed.

Lemma easeOut_monotone_witness :
  (0 <= 1 # 3) /\ (1 # 3 <= 1 # 2) /\ (1 # 2 <= 1) /\
  (easeOut 0 == 0 /\ easeOut 1 == 1 /\ 0 <= easeOut (1 # 3) <= easeOut (1 # 2) /\
   easeOut (1 # 2) <= 1).
Proof.
  split; [lra|]. split; [lra|]. split; [lra|].
  apply (easeOut_monotone (1 # 3) (1 # 2)); lra.
Defined.

(** [X5] easeBounce maps [0, 1] into [0, 1]; it starts at 0 and touches 1
    at t = 1 and at the three breakpoints 1/2.75, 2/2.75 and 2.5/2.75. *)
Theorem easeBounce_unit (t : Q) (H : 0 <= t <= 1) :
  0 <= easeBounce t <= 1 /\ easeBounce 0 == 0 /\ easeBounce 1 == 1 /\
  easeBounce (4 # 11) == 1 /\ easeBounce (8 # 11) == 1 /\ easeBounce (10 # 11) == 1.
Proof.
  split; [|repeat split; vm_compute; reflexivity].
  unfold easeBounce, Qltb.
  assert (E1 : 1 / (11 # 4) == 4 # 11) by reflexivity.
  assert (E2 : 2 / (11 # 4) == 8 # 11) by reflexivity.
  assert (E3 : (5 # 2) / (11 # 4) == 10 # 11) by reflexivity.
  assert (E4 : (3 # 2) / (11 # 4) == 6 # 11) by reflexivity.
  assert (E5 : (9 # 4) / (11 # 4) == 9 # 11) by reflexivity.
  assert (E6 : (21 # 8) / (11 # 4) == 21 # 22) by reflexivity.
  destruct (Qle_bool (1 / (11 # 4)) t) eqn:F1; simpl; qbool; rewrite ?E1 in F1.
  - destruct (Qle_bool (2 / (11 # 4)) t) eqn:F2; simpl; qbool; rewrite ?E2 in F2.
    + destruct (Qle_bool ((5 # 2) / (11 # 4)) t) eqn:F3; simpl; qbool; rewrite ?E3 in F3.
      * rewrite E6. pose proof (bounce_piece t (21 # 22) (1 # 22) (63 # 64)). lra.
      * rewrite E5. pose proof (bounce_piece t (9 # 11) (1 # 11) (15 # 16)). lra.
    + rewrite E4. pose proof (bounce_piece t (6 # 11) (2 # 11) (3 # 4)). lra.
  - pose proof (bounce_piece t 0 (4 # 11) 0).
    assert (R : t - 0 == t) by ring. rewrite R in H0. lra.
Qed.

Lemma easeBounce_unit_witness :
  (0 <= 1 # 2 <= 1) /\
  (0 <= easeBounce (1 # 2) <= 1 /\ easeBounce 0 == 0 /\ easeBounce 1 == 1 /\
   easeBounce (4 # 11) == 1 /\ easeBounce (8 # 11) == 1 /\ easeBounce (10 # 11) == 1).
Proof. split; [lra | apply (easeBounce_unit (1 # 2)); lra]. Defined.


Lemma floor_draw (r : Q) (k : Z) :
  0 <= r -> r < 1 -> (0 < k)%Z -> (0 <= Qfloor (r * inject_Z k) < k)%Z.
Proof.
  intros H0 H1 Hk.
  assert (Hk' : 0 < inject_Z k) by (change 0 with (inject_Z 0); rewrite <- Zlt_Qlt; exact Hk).
  split.
  - change 0%Z with (Qfloor 0). apply Qfloor_resp_le. apply Qmult_le_0_compat; lra.
  - rewrite Zlt_Qlt. pose proof (Qfloor_le (r * inject_Z k)).
    assert (0 < (1 - r) * inject_Z k) by (apply Qmult_lt_0_compat; lra). lra.
Qed.

Lemma draw_scale (r a : Q) : 0 <= r < 1 -> 0 <= a -> 0 <= r * a <= a.
Proof.
  intros [H0 H1] Ha. split; [apply Qmult_le_0_compat; lra|].
  assert (0 <= (1 - r) * a) by (apply Qmult_le_0_compat; lra). lra.
Qed.

(** [X6] For integer bounds min <= max (as at both call sites) and a draw
    of Math.random() in [0, 1), randomIntBetween(min, max) is an integer of
    [min, max]. *)
Theorem randomIntBetween_range (lo hi : Z) (r : Q) (rs : list Q)
    (H0 : 0 <= r) (H1 : r < 1) (Hle : (lo <= hi)%Z) :
  (lo <= fst (randomIntBetween lo hi (r :: rs)) <= hi)%Z.
Proof.
  unfold randomIntBetween, bind, Math_random, ret, Math_floor. cbn [fst].
  pose proof (floor_draw r (hi - lo + 1) H0 H1 ltac:(lia)). lia.
Qed.

Lemma randomIntBetween_range_witness :
  (0 <= 99 # 100) /\ (99 # 100 < 1) /\ (5 <= 10)%Z /\
  (5 <= fst (randomIntBetween 5 10 [99 # 100]) <= 10)%Z.
Proof.
  split; [lra|]. split; [lra|]. split; [lia|].
  apply (randomIntBetween_range 5 10 (99 # 100) []); [lra | lra | lia].
Defined.

(** [X7] For a draw of Math.random() in [0, 1), getRandomColor() returns
    one of the twelve BABY_COLORS, never its fallback. *)
Theorem getRandomColor_in_palette (r : Q) (rs : list Q) (H0 : 0 <= r) (H1 : r < 1) :
  In (fst (getRandomColor (r :: rs))) BABY_COLORS.
Proof.
  cbn [getRandomColor bind Math_random ret fst].
  unfold js_index, Math_floor.
  pose proof (floor_draw r (Z.of_nat (List.length BABY_COLORS)) H0 H1 ltac:(cbn; lia)) as [A B].
  destruct (Qfloor _ <? 0)%Z eqn:E; [lia|].
  apply nth_In. lia.
Qed.

Lemma getRandomColor_in_palette_witness :
  (0 <= 1 # 2) /\ (1 # 2 < 1) /\ In (fst (getRandomColor [1 # 2])) BABY_COLORS.
Proof.
  split; [lra|]. split; [lra|]. apply (getRandomColor_in_palette (1 # 2) []); lra.
Defined.

(** [X8] For two draws in [0, 1) and a canvas at least twice the padding
    wide and high, getRandomPosition(w, h, padding) lies in
    [padding, w - padding] x [padding, h - padding]. *)
Theorem getRandomPosition_inside (w h pad r1 r2 : Q) (rs : list Q)
    (Hr1 : 0 <= r1 < 1) (Hr2 : 0 <= r2 < 1) (Hw : 2 * pad <= w) (Hh : 2 * pad <= h) :
  let pos := fst (getRandomPosition w h pad (r1 :: r2 :: rs)) in
  pad <= pos_x pos <= w - pad /\ pad <= pos_y pos <= h - pad.
Proof.
  cbn. pose proof (draw_scale r1 (w - pad - pad) Hr1 ltac:(lra)).
  pose proof (draw_scale r2 (h - pad - pad) Hr2 ltac:(lra)).
  split; split; lra.
Qed.

Lemma getRandomPosition_inside_witness :
  (0 <= 1 # 3 < 1) /\ (0 <= 9 # 10 < 1) /\ (2 * 120 <= 800) /\ (2 * 120 <= 600) /\
  (let pos := fst (getRandomPosition 800 600 120 [1 # 3; 9 # 10]) in
   120 <= pos_x pos <= 800 - 120 /\ 120 <= pos_y pos <= 600 - 120).
Proof.
  split; [lra|]. split; [lra|]. split; [lra|]. split; [lra|].
  apply (getRandomPosition_inside 800 600 120 (1 # 3) (9 # 10) []); lra.
Defined.

Lemma hue2rgb_between (p q t : Q) : p <= q -> -1 <= t -> p <= hue2rgb p q t <= q.
Proof.
  intros Hpq Ht. unfold hue2rgb, Qltb.
  destruct (Qle_bool 0 t) eqn:E1; cbv beta iota zeta delta [negb]; qbool;
  [ set (t1 := t) | set (t1 := t + 1) ];
  (destruct (Qle_bool t1 1) eqn:E2; cbv beta iota zeta delta [negb]; qbool;
   [ set (t2 := t1) | set (t2 := t1 - 1) ]);
  assert (T : 0 <= t2) by (subst t1 t2; lra); clearbody t2;
  destruct (Qle_bool (1 # 6) t2) eqn:E3; cbv beta iota zeta delta [negb]; qbool;
  try (destruct (Qle_bool (1 # 2) t2) eqn:E4; cbv beta iota zeta delta [negb]; qbool);
  try (destruct (Qle_bool (2 # 3) t2) eqn:E5; cbv beta iota zeta delta [negb]; qbool);
  try lra.
  all: first
    [ assert (0 <= (q - p) * (6 * t2)) by (apply Qmult_le_0_compat; lra);
      assert (0 <= (q - p) * (1 - 6 * t2)) by (apply Qmult_le_0_compat; lra)
    | assert (0 <= (q - p) * (((2 # 3) - t2) * 6)) by (apply Qmult_le_0_compat; lra);
      assert (0 <= (q - p) * (1 - ((2 # 3) - t2) * 6)) by (apply Qmult_le_0_compat; lra) ].
  all: split; lra.
Qed.

Lemma round255 (v : Q) : 0 <= v <= 1 -> (0 <= Math_round (v * 255) <= 255)%Z.
Proof.
  intros [H0 H1]. unfold Math_round. split.
  - change 0%Z with (Qfloor 0). apply Qfloor_resp_le. lra.
  - assert (A : (Qfloor (v * 255 + (1 # 2)) <= Qfloor (255 + (1 # 2)))%Z)
      by (apply Qfloor_resp_le; lra).
    assert (E : Qfloor (255 + (1 # 2)) = 255%Z) by reflexivity. lia.
Qed.

(** [X9] For a hue h >= 0 and a saturation and lightness in [0, 100],
    the three numbers hslToRgb(h, s, l) prints are integers of [0, 255];
    with saturation 0 they are equal (a grey). *)
Theorem hslToRgb_channels_range (h s l : Q)
    (Hh : 0 <= h) (Hs : 0 <= s <= 100) (Hl : 0 <= l <= 100) :
  let '(r, g, b) := hslToRgb_channels h s l in
  (0 <= r <= 255 /\ 0 <= g <= 255 /\ 0 <= b <= 255)%Z /\ (s == 0 -> r = g /\ g = b).
Proof.
  unfold hslToRgb_channels.
  assert (HS : 0 <= s / 100 <= 1) by (split; [apply Qle_shift_div_l | apply Qle_shift_div_r]; lra).
  assert (HL : 0 <= l / 100 <= 1) by (split; [apply Qle_shift_div_l | apply Qle_shift_div_r]; lra).
  assert (HH : 0 <= h / 360) by (apply Qle_shift_div_l; lra).
  remember (s / 100) as S eqn:ES. remember (l / 100) as L. remember (h / 360) as H.
  destruct (Qeq_bool S 0) eqn:E0.
  - pose proof (round255 L HL). repeat split; lia.
  - assert (Hs0 : ~ s == 0).
    { intros Z. apply Qeq_bool_neq in E0. apply E0. rewrite ES, Z. reflexivity. }
    assert (A1 : 0 <= L * S) by (apply Qmult_le_0_compat; lra).
    assert (A2 : 0 <= L * (1 - S)) by (apply Qmult_le_0_compat; lra).
    assert (A3 : 0 <= S * (1 - L)) by (apply Qmult_le_0_compat; lra).
    assert (A4 : 0 <= (1 - S) * (1 - L)) by (apply Qmult_le_0_compat; lra).
    assert (PQ : forall q, 0 <= 2 * L - q /\ 2 * L - q <= q /\ q <= 1 ->
              let '(r, g, b) := (Math_round (hue2rgb (2 * L - q) q (H + (1 # 3)) * 255),
                                 Math_round (hue2rgb (2 * L - q) q H * 255),
                                 Math_round (hue2rgb (2 * L - q) q (H - (1 # 3)) * 255)) in
              (0 <= r <= 255 /\ 0 <= g <= 255 /\ 0 <= b <= 255)%Z /\ (s == 0 -> r = g /\ g = b)).
    { intros q (Hq1 & Hq2 & Hq3). cbv beta iota.
      pose proof (hue2rgb_between (2 * L - q) q (H + (1 # 3)) ltac:(lra) ltac:(lra)).
      pose proof (hue2rgb_between (2 * L - q) q H ltac:(lra) ltac:(lra)).
      pose proof (hue2rgb_between (2 * L - q) q (H - (1 # 3)) ltac:(lra) ltac:(lra)).
      pose proof (round255 (hue2rgb (2 * L - q) q (H + (1 # 3))) ltac:(lra)).
      pose proof (round255 (hue2rgb (2 * L - q) q H) ltac:(lra)).
      pose proof (round255 (hue2rgb (2 * L - q) q (H - (1 # 3))) ltac:(lra)).
      split; [repeat split; lia | intros Z; contradiction]. }
    unfold Qltb. destruct (Qle_bool (1 # 2) L) eqn:E1; cbv beta iota delta [negb]; qbool;
      apply PQ; repeat split; lra.
Qed.

Lemma hslToRgb_channels_range_witness :
  (0 <= 200) /\ (0 <= 80 <= 100) /\ (0 <= 70 <= 100) /\
  (let '(r, g, b) := hslToRgb_channels 200 80 70 in
   (0 <= r <= 255 /\ 0 <= g <= 255 /\ 0 <= b <= 255)%Z /\ (80 == 0 -> r = g /\ g = b)).
Proof.
  split; [lra|]. split; [lra|]. split; [lra|].
  apply (hslToRgb_channels_range 200 80 70); lra.
Defined.

(** performanceMonitor.update() once per frame, the k-th frame at
    performance.now() = t0 + k * d. *)
Definition pm_frames (t0 d : Q) (ks : list nat) (m : PerformanceMonitor) : PerformanceMonitor :=
  fold_left (fun m k => pm_update (t0 + inject_Z (Z.of_nat k) * d) m) ks m.

Lemma inj_nat_S (k : nat) : inject_Z (Z.of_nat (S k)) == inject_Z (Z.of_nat k) + 1.
Proof. rewrite Nat2Z.inj_succ, <- Z.add_1_r, inject_Z_plus. reflexivity. Qed.

Lemma inj_nat_le (a b : nat) : (a <= b)%nat -> inject_Z (Z.of_nat a) <= inject_Z (Z.of_nat b).
Proof. intros. rewrite <- Zle_Qle. lia. Qed.

Section Frames.
Variables (m : PerformanceMonitor) (t0 d : Q) (n : nat).
Hypotheses (Hfc : frameCount m = 0%nat) (Hlt : lastTime m = t0)
  (Hui : updateInterval m = 1000) (Hd : 0 < d)
  (Hn1 : inject_Z (Z.of_nat n - 1) * d < 1000).

Lemma pm_frames_before (k : nat) : (k < n)%nat ->
  let mk := pm_frames t0 d (seq 1 k) m in
  frameCount mk = k /\ lastTime mk = t0 /\ fps mk = fps m /\ updateInterval mk = 1000 /\
  (1 <= k -> frameTime mk == inject_Z (Z.of_nat k) * d)%nat.
Proof.
  induction k as [|k IH]; intros Hk.
  - cbn. repeat split; auto. lia.
  - cbv zeta in *. destruct IH as (I1 & I2 & I3 & I4 & _); [lia|].
    unfold pm_frames in *. rewrite seq_S, fold_left_app. cbn [fold_left].
    replace (1 + k)%nat with (S k) by lia.
    set (mk := fold_left _ (seq 1 k) m) in *.
    assert (Hle : inject_Z (Z.of_nat (S k)) <= inject_Z (Z.of_nat n - 1))
      by (rewrite <- Zle_Qle; lia).
    assert (Hsk : inject_Z (Z.of_nat (S k)) * d <= inject_Z (Z.of_nat n - 1) * d)
      by (apply Qmult_le_compat_r; lra).
    unfold pm_update. rewrite I2, I4.
    destruct (Qle_bool 1000 (t0 + inject_Z (Z.of_nat (S k)) * d - t0)) eqn:E; qbool;
      [lra|].
    cbn. repeat split; auto. intros _. ring.
Qed.

(** The frame that brings the time since lastTime to updateInterval. *)
Hypothesis (Hn2 : 1000 <= inject_Z (Z.of_nat n) * d).

Lemma pm_frames_refresh :
  let mn := pm_frames t0 d (seq 1 n) m in
  frameCount mn = 0%nat /\ lastTime mn == t0 + inject_Z (Z.of_nat n) * d /\
  fps mn = Math_round (1000 / d) /\ frameTime mn == inject_Z (Z.of_nat n) * d.
Proof.
  assert (Hpos : (0 < n)%nat).
  { destruct n; [|lia]. exfalso. cbn in Hn2. change (inject_Z 0) with (0 # 1) in Hn2. lra. }
  pose proof (pm_frames_before (pred n) ltac:(lia)) as (I1 & I2 & I3 & I4 & _).
  set (k := pred n) in *. assert (Ek : n = S k) by lia.
  pose proof Hn2 as Hn2'. rewrite Ek in Hn2' |- *.
  cbv zeta in *. unfold pm_frames in *. rewrite seq_S, fold_left_app. cbn [fold_left].
  replace (1 + k)%nat with (S k) by lia.
  set (mk := fold_left _ (seq 1 k) m) in *.
  unfold pm_update. rewrite I2, I4, I1.
  destruct (Qle_bool 1000 (t0 + inject_Z (Z.of_nat (S k)) * d - t0)) eqn:E; qbool;
    [|lra].
  cbn [frameCount lastTime fps frameTime updateInterval].
  split; [reflexivity|]. split; [reflexivity|]. split; [|ring].
  unfold Math_round. apply Qfloor_comp.
  assert (Hn0 : ~ inject_Z (Z.of_nat (S k)) == 0).
  { rewrite inj_nat_S. pose proof (inj_nat_le 0 k ltac:(lia)) as H0.
    cbn in H0. change (inject_Z 0) with (0 # 1) in H0. lra. }
  field. split; [lra|]. intros Z. apply Hn0.
  assert (Z' : inject_Z (Z.of_nat (S k)) * d == 0) by (rewrite <- Z; ring).
  apply Qmult_integral in Z'. destruct Z' as [Z'|Z']; [exact Z'|lra].
Qed.

End Frames.

(** [X10] Starting from a fresh count, with one update() every d ms: the
    frames before updateInterval (1000 ms) has passed keep fps and
    lastTime and report as frameTime the whole time since lastTime (k * d
    after k frames), not the time of one frame; the frame that reaches
    1000 ms sets fps to Math.round(1000 / d), restarts the count and moves
    lastTime, and isPerformanceGood() is false right after it. *)
Theorem performance_monitor_window (m : PerformanceMonitor) (t0 d : Q) (n : nat)
    (Hfc : frameCount m = 0%nat) (Hlt : lastTime m = t0) (Hui : updateInterval m = 1000)
    (Hd : 0 < d) (Hn1 : inject_Z (Z.of_nat n - 1) * d < 1000)
    (Hn2 : 1000 <= inject_Z (Z.of_nat n) * d) :
  (forall k, (1 <= k < n)%nat ->
     let mk := pm_frames t0 d (seq 1 k) m in
     frameCount mk = k /\ lastTime mk = t0 /\ fps mk = fps m /\
     frameTime mk == inject_Z (Z.of_nat k) * d) /\
  (let mn := pm_frames t0 d (seq 1 n) m in
   frameCount mn = 0%nat /\ lastTime mn == t0 + inject_Z (Z.of_nat n) * d /\
   fps mn = Math_round (1000 / d) /\ frameTime mn == inject_Z (Z.of_nat n) * d /\
   isPerformanceGood mn = false).
Proof.
  split.
  - intros k Hk. pose proof (pm_frames_before m t0 d n Hfc Hlt Hui Hd Hn1 k ltac:(lia))
      as (I1 & I2 & I3 & _ & I5).
    repeat split; auto. apply I5. lia.
  - pose proof (pm_frames_refresh m t0 d n Hfc Hlt Hui Hd Hn1 Hn2) as (R1 & R2 & R3 & R4).
    cbv zeta in *. repeat split; auto.
    unfold isPerformanceGood. destruct (Qle_bool (frameTime _) _) eqn:E.
    + qbool. unfold CONFIG_performance_maxFrameTime in E. lra.
    + apply andb_false_r.
Qed.

Lemma performance_monitor_window_witness :
  frameCount (new_PerformanceMonitor 5) = 0%nat /\ lastTime (new_PerformanceMonitor 5) = 5 /\
  updateInterval (new_PerformanceMonitor 5) = 1000 /\ 0 < 16 /\
  inject_Z (Z.of_nat 63 - 1) * 16 < 1000 /\ 1000 <= inject_Z (Z.of_nat 63) * 16 /\
  ((forall k, (1 <= k < 63)%nat ->
     let mk := pm_frames 5 16 (seq 1 k) (new_PerformanceMonitor 5) in
     frameCount mk = k /\ lastTime mk = 5 /\ fps mk = fps (new_PerformanceMonitor 5) /\
     frameTime mk == inject_Z (Z.of_nat k) * 16) /\
   (let mn := pm_frames 5 16 (seq 1 63) (new_PerformanceMonitor 5) in
    frameCount mn = 0%nat /\ lastTime mn == 5 + inject_Z (Z.of_nat 63) * 16 /\
    fps mn = Math_round (1000 / 16) /\ frameTime mn == inject_Z (Z.of_nat 63) * 16 /\
    isPerformanceGood mn = false)).
Proof.
  do 6 (split; [vm_compute; reflexivity || discriminate|]).
  apply (performance_monitor_window (new_PerformanceMonitor 5) 5 16 63);
    vm_compute; reflexivity || discriminate.
Defined.
End UtilsProps.

Module KeyboardProps.
Import Utils Keyboard.
Local Open Scope string_scope.

Lemma set_has_In (l : list string) (k : string) : set_has l k = true <-> In k l.
Proof.
  unfold set_has. rewrite existsb_exists. split.
  - intros [x [Hx E]]. apply String.eqb_eq in E. subst. exact Hx.
  - intros Hk. exists k. split; [exact Hk | apply String.eqb_refl].
Qed.

Lemma set_has_notIn (l : list string) (k : string) : set_has l k = false <-> ~ In k l.
Proof.
  rewrite <- set_has_In. destruct (set_has l k); split; congruence.
Qed.

Lemma isParentControl_check (event : KeyboardEvent) :
  isParentControl event = match checkParentControls event with Some _ => true | None => false end.
Proof.
  unfold isParentControl, checkParentControls.
  induction PARENT_CONTROLS as [|[a c] l IH]; [reflexivity|].
  cbn. destruct (matchesKeyCombo event c); [reflexivity|]. exact IH.
Qed.

Lemma shouldBlockKey_free (event : KeyboardEvent) :
  checkParentControls event = None ->
  (shouldBlockKey event = false <->
   ~ In (code event) BLOCKED_KEYS /\ ~ In (key event) BLOCKED_KEYS /\
   ctrlKey event = false /\ altKey event = false /\ metaKey event = false).
Proof.
  intros Hc. unfold shouldBlockKey. rewrite isParentControl_check, Hc.
  rewrite <- !set_has_notIn.
  destruct (set_has BLOCKED_KEYS (code event)), (set_has BLOCKED_KEYS (key event)),
    (ctrlKey event), (altKey event), (metaKey event); cbn; intuition congruence.
Qed.

(** The draws of Math.random(), in [0, 1). *)
Definition draws (r : list Q) : Prop := Forall (fun q => 0 <= q /\ q < 1) r.

Lemma getRandomSound_mem (sounds : list string) (r : list Q) :
  sounds <> [] -> draws r ->
  In (fst (getRandomSound sounds r)) (map Some sounds) /\ draws (snd (getRandomSound sounds r)).
Proof.
  intros Hne Hr. destruct sounds as [|s0 sounds]; [congruence|].
  destruct r as [|q r'].
  - cbn. split; [left; reflexivity | constructor].
  - inversion Hr as [|? ? [Hq0 Hq1] Hr']. subst. cbn [getRandomSound bind Math_random ret fst snd].
    split; [|exact Hr'].
    unfold js_index, Math_floor.
    pose proof (UtilsProps.floor_draw q (Z.of_nat (List.length (s0 :: sounds))) Hq0 Hq1
                  ltac:(cbn; lia)) as [A B].
    destruct (_ <? 0)%Z eqn:E; [lia|].
    apply nth_In. rewrite length_map. lia.
Qed.


(** [X11] A keydown that triggers a parent control holds Ctrl and Shift
    and names one of the four actions; handleKeyDown then only prevents
    the default and calls onParentControl(action), whether or not the game
    is active, and leaves the handler and the random draws untouched. *)
Theorem parent_control_first (now t_stamp t_check : Q) (event : KeyboardEvent)
    (h : KeyboardHandler) (r : list Q) (action : string)
    (H : checkParentControls event = Some action) :
  ctrlKey event = true /\ shiftKey event = true /\
  In action ["exit"; "toggleSound"; "clearScreen"; "showControls"] /\
  handleKeyDown now t_stamp t_check event h r =
    ((Prevented :: (if onParentControl_set h then [ParentControl action] else []), h), r).
Proof.
  pose proof H as H0.
  unfold checkParentControls, matchesKeyCombo in H. cbn in H.
  destruct (ctrlKey event), (shiftKey event); cbn in H; try discriminate.
  repeat match goal with
  | H : context [if ?b then _ else _] |- _ => destruct b
  end; try discriminate; injection H as <-;
  (split; [reflexivity|]; split; [reflexivity|]; split; [cbn; tauto|]);
  unfold handleKeyDown; rewrite H0; reflexivity.
Qed.

Definition ctrl_shift_M : KeyboardEvent := mkKeyboardEvent "KeyM" "M" true true false false.

Lemma parent_control_first_witness :
  checkParentControls ctrl_shift_M = Some "toggleSound" /\
  (ctrlKey ctrl_shift_M = true /\ shiftKey ctrl_shift_M = true /\
   In "toggleSound" ["exit"; "toggleSound"; "clearScreen"; "showControls"] /\
   handleKeyDown 50 50 50 ctrl_shift_M new_KeyboardHandler [] =
     ((Prevented :: (if onParentControl_set new_KeyboardHandler
                     then [ParentControl "toggleSound"] else []), new_KeyboardHandler), [])).
Proof.
  split; [vm_compute; reflexivity|].
  apply (parent_control_first 50 50 50 ctrl_shift_M new_KeyboardHandler [] "toggleSound").
  vm_compute. reflexivity.
Defined.

(** [X12] Ctrl+Shift with the code of a parent-control key triggers that
    control, whatever Alt and Meta are, as long as event.key is not itself
    one of the four control keys. *)
Theorem parent_combo_recognized (event : KeyboardEvent) (action : string) (combo : Combo)
    (Hin : In (action, combo) PARENT_CONTROLS)
    (Hc : ctrlKey event = true) (Hs : shiftKey event = true)
    (Hcode : code event = combo_key combo)
    (Hkey : ~ In (key event) ["Escape"; "KeyM"; "KeyC"; "KeyP"]) :
  checkParentControls event = Some action.
Proof.
  assert (K : forall k, In k ["Escape"; "KeyM"; "KeyC"; "KeyP"] -> String.eqb (key event) k = false).
  { intros k Hk. apply String.eqb_neq. intros E. apply Hkey. rewrite E. exact Hk. }
  pose proof (K "Escape" ltac:(cbn; tauto)). pose proof (K "KeyM" ltac:(cbn; tauto)).
  pose proof (K "KeyC" ltac:(cbn; tauto)). pose proof (K "KeyP" ltac:(cbn; tauto)).
  unfold checkParentControls, matchesKeyCombo. rewrite Hc, Hs, Hcode.
  cbn in Hin. destruct Hin as [E|[E|[E|[E|[]]]]]; injection E as <- <-; cbn;
    repeat match goal with H : String.eqb (key event) _ = false |- _ => rewrite H end;
    reflexivity.
Qed.

Definition ctrl_shift_alt_C : KeyboardEvent := mkKeyboardEvent "KeyC" "C" true true true false.

Lemma parent_combo_recognized_witness :
  In ("clearScreen", mkCombo true true false false "KeyC") PARENT_CONTROLS /\
  ctrlKey ctrl_shift_alt_C = true /\ shiftKey ctrl_shift_alt_C = true /\
  code ctrl_shift_alt_C = combo_key (mkCombo true true false false "KeyC") /\
  ~ In (key ctrl_shift_alt_C) ["Escape"; "KeyM"; "KeyC"; "KeyP"] /\
  checkParentControls ctrl_shift_alt_C = Some "clearScreen".
Proof.
  assert (Hin : In ("clearScreen", mkCombo true true false false "KeyC") PARENT_CONTROLS)
    by (cbn; tauto).
  assert (Hk : ~ In (key ctrl_shift_alt_C) ["Escape"; "KeyM"; "KeyC"; "KeyP"])
    by (cbn; intros [E|[E|[E|[E|[]]]]]; discriminate).
  do 4 (split; [first [exact Hin | reflexivity | exact Hk]|]). split; [exact Hk|].
  apply (parent_combo_recognized ctrl_shift_alt_C "clearScreen" _ Hin); reflexivity || exact Hk.
Defined.

(** A keydown that reaches the game: no parent control, the game active,
    neither event.code nor event.key blocked, no Ctrl, Alt or Meta, and at
    least 20 ms since the last accepted key. *)
Definition accepted (now : Q) (event : KeyboardEvent) (h : KeyboardHandler) : Prop :=
  checkParentControls event = None /\ gameActive h = true /\
  ~ In (code event) BLOCKED_KEYS /\ ~ In (key event) BLOCKED_KEYS /\
  ctrlKey event = false /\ altKey event = false /\ metaKey event = false /\
  20 <= now - lastKeyTime h.

(** [X13] handleKeyDown calls onKeyPress exactly for the accepted keydowns
    (when the callback is set); an accepted keydown counts one more key
    press and sets lastKeyTime to now, any other leaves the handler and the
    random draws unchanged. *)
Theorem handleKeyDown_delivery (now t_stamp t_check : Q) (event : KeyboardEvent)
    (h : KeyboardHandler) (r : list Q) :
  let '((outs, h'), r') := handleKeyDown now t_stamp t_check event h r in
  ((exists ki, In (KeyPress ki) outs) <-> accepted now event h /\ onKeyPress_set h = true) /\
  (accepted now event h ->
     keyPressCount h' = S (keyPressCount h) /\ lastKeyTime h' = now /\
     gameActive h' = gameActive h) /\
  (~ accepted now event h -> h' = h /\ r' = r).
Proof.
  unfold handleKeyDown, accepted. remember analyzeKey as AK eqn:EAK. clear EAK.
  destruct (checkParentControls event) as [a|] eqn:Ec.
  { cbn. split; [|split; [intros [A _]; discriminate | auto]].
    split; [|intros [[A _] _]; discriminate].
    intros [ki Hki]. destruct (onParentControl_set h); cbn in Hki; intuition discriminate. }
  pose proof (shouldBlockKey_free event Ec) as Hb.
  destruct (gameActive h) eqn:Eg; cbn.
  2:{ split; [|split; [intros [_ [A _]]; discriminate | auto]].
      split; [intros [ki []] | intros [[_ [A _]] _]; discriminate]. }
  destruct (shouldBlockKey event) eqn:Es; cbn.
  { assert (NA : ~ (~ In (code event) BLOCKED_KEYS /\ ~ In (key event) BLOCKED_KEYS /\
                    ctrlKey event = false /\ altKey event = false /\ metaKey event = false))
      by (rewrite <- Hb; discriminate).
    split; [|split; [intros (_ & _ & A); exfalso; apply NA; tauto | auto]].
    split; [intros [ki [E|[]]]; discriminate | intros [(_ & _ & A) _]; exfalso; apply NA; tauto]. }
  destruct Hb as [Hb _]. specialize (Hb eq_refl).
  unfold Qltb. destruct (Qle_bool 20 (now - lastKeyTime h)) eqn:Et; cbn; qbool.
  2:{ split; [|split; [intros (_ & _ & _ & _ & _ & _ & _ & A); lra | auto]].
      split; [intros [ki [E|[]]]; discriminate | intros [(_ & _ & _ & _ & _ & _ & _ & A) _]; lra]. }
  unfold bind, ret.
  match goal with |- context [AK ?n ?t event t_stamp t_check r] =>
    destruct (AK n t event t_stamp t_check r) as [ki r1] end. cbn.
  assert (AC : @None string = None /\ true = true /\
                ~ In (code event) BLOCKED_KEYS /\ ~ In (key event) BLOCKED_KEYS /\
                ctrlKey event = false /\ altKey event = false /\ metaKey event = false /\
                20 <= now - lastKeyTime h)
    by (destruct Hb as (B1 & B2 & B3 & B4 & B5); repeat split; assumption || reflexivity).
  split; [|split; [intros _; auto | intros NA; exfalso; exact (NA AC)]].
  split.
  - intros [ki' Hki']. split; [exact AC|].
    destruct (onKeyPress_set h); [reflexivity|]. exfalso. cbn in Hki'.
    destruct Hki' as [E|Hki']; [discriminate|].
    destruct (_ =? 0)%nat; cbn in Hki'; intuition discriminate.
  - intros [_ Ek]. rewrite Ek. exists ki. cbn. tauto.
Qed.

(** Case analysis on the branches of analyzeKey. *)
Ltac analyze_cases :=
  repeat (match goal with
   | |- context [if String.prefix ?a ?b then _ else _] =>
       let E := fresh "E" in destruct (String.prefix a b) eqn:E
   | |- context [if String.eqb (code ?ev) ?b then _ else _] =>
       let E := fresh "E" in destruct (String.eqb (code ev) b) eqn:E
   | |- context [if isPunctuation ?k then _ else _] =>
       let E := fresh "E" in destruct (isPunctuation k) eqn:E
   | |- context [if character_isVowel ?k then _ else _] =>
       let E := fresh "E" in destruct (character_isVowel k) eqn:E
   | |- context [getRandomSound ?l ?r] =>
       let E := fresh "E" in destruct (getRandomSound l r) eqn:E
   end; cbn -[getRandomSound isPunctuation character_isVowel String.prefix] in *).

(** analyzeKey, called after at least one key press with the clock less
    than 200 ms past lastKeyTime: the effect is 'rainbow' whatever the key,
    and the sound type of a key that is not a letter is 'chime'. *)
Lemma analyzeKey_rapid (n : nat) (lt : Q) (event : KeyboardEvent) (ts tc : Q) (r : list Q) :
  (0 < n)%nat -> tc - lt < 200 ->
  let ki := fst (analyzeKey n lt event ts tc r) in
  ki_effect ki = "rainbow" /\ ki_timestamp ki = ts /\ ki_code ki = code event /\
  (String.prefix "Key" (code event) = true <-> ki_type ki = "letter") /\
  (ki_type ki = "letter" -> ki_character ki = Some (Shapes.toLowerCase (key event))) /\
  (ki_type ki <> "letter" -> ki_soundType ki = Some "chime").
Proof.
  intros Hn Hc.
  assert (R : (Nat.ltb 0 n && Qltb (tc - lt) 200) = true).
  { apply andb_true_intro. split; [apply Nat.ltb_lt; exact Hn|].
    unfold Qltb. destruct (Qle_bool 200 (tc - lt)) eqn:E; qbool; [lra | reflexivity]. }
  cbv beta zeta delta [analyzeKey]. rewrite R. unfold bind, ret.
  analyze_cases.
  all: repeat split; try reflexivity; try discriminate; try congruence.
Qed.

Lemma analyzeKey_letter (n : nat) (lt : Q) (event : KeyboardEvent) (ts tc : Q) (r : list Q) :
  String.prefix "Key" (code event) = true -> draws r ->
  let ki := fst (analyzeKey n lt event ts tc r) in
  ki_type ki = "letter" /\ ki_character ki = Some (Shapes.toLowerCase (key event)) /\
  In (ki_soundType ki)
     (map Some (if isVowel (Shapes.toLowerCase (key event))
                then ["chime"; "bell"; "whistle"] else ["note"; "toy"; "bubble"])).
Proof.
  intros Hk Hr. destruct event as [c k ct sh al me]. cbn [code key] in *.
  cbv beta zeta delta [analyzeKey]. cbn [code key]. rewrite Hk. unfold bind, ret.
  destruct (getRandomSound KEY_SOUND_MAP_letters r) as [s1 r1] eqn:E1.
  pose proof (getRandomSound_mem KEY_SOUND_MAP_letters r ltac:(discriminate) Hr) as [_ D].
  rewrite E1 in D. cbn [snd] in D.
  destruct (isVowel (Shapes.toLowerCase k)) eqn:V;
  destruct (Nat.ltb 0 n && Qltb (tc - lt) 200); cbn -[getRandomSound isVowel]; rewrite ?V;
    cbn -[getRandomSound isVowel].
  all: rewrite V; cbv beta iota.
  all: match goal with |- context [getRandomSound ?l ?r'] =>
    pose proof (getRandomSound_mem l r' ltac:(discriminate) D) as [M _];
    destruct (getRandomSound l r') as [s2 r2]; cbn in M |- * end.
  all: repeat split; exact M.
Qed.

(** Every key in the outputs of a handleKeyDown call. *)
Definition delivered (outs : list output) : list KeyInfo :=
  flat_map (fun o => match o with KeyPress ki => [ki] | _ => [] end) outs.

Lemma delivered_In (outs : list output) (ki : KeyInfo) :
  In ki (delivered outs) <-> In (KeyPress ki) outs.
Proof.
  unfold delivered. rewrite in_flat_map. split.
  - intros [o [Ho Hki]]. destruct o; cbn in Hki; try contradiction.
    destruct Hki as [<-|[]]. exact Ho.
  - intros H. exists (KeyPress ki). split; [exact H | left; reflexivity].
Qed.

(** The only key a handleKeyDown call can deliver: the analyzeKey result
    for the incremented count and lastKeyTime = now. *)
Lemma handleKeyDown_delivers (now ts tc : Q) (event : KeyboardEvent) (h : KeyboardHandler)
    (r : list Q) (ki : KeyInfo) :
  In (KeyPress ki) (fst (fst (handleKeyDown now ts tc event h r))) ->
  ki = fst (analyzeKey (S (keyPressCount h)) now event ts tc r).
Proof.
  unfold handleKeyDown. destruct (checkParentControls event).
  { cbn. destruct (onParentControl_set h); cbn; intuition discriminate. }
  destruct (gameActive h); cbn; [|tauto].
  destruct (shouldBlockKey event); cbn; [intuition discriminate|].
  destruct (Qltb (now - lastKeyTime h) 20); cbn; [intuition discriminate|].
  unfold bind, ret. destruct (analyzeKey _ _ event ts tc r) as [k r1]. cbn.
  intros [E|H]; [discriminate|]. apply in_app_or in H. destruct H as [H|H].
  - destruct (onKeyPress_set h); cbn in H; [|contradiction].
    destruct H as [E|[]]. injection E as <-. reflexivity.
  - destruct (_ =? 0)%nat; cbn in H; intuition discriminate.
Qed.

(** [X14] Because handleKeyDown sets lastKeyTime to now before it calls
    analyzeKey, whose rapid-typing test reads performance.now() again,
    every key delivered to onKeyPress (when that reading is less than
    200 ms after now) has the effect 'rainbow', overriding the
    'explosion', 'fireworks', 'sparkle', 'star', 'bounce' and 'bubble'
    effects; every delivered key that is not a letter has the sound type
    'chime'. *)
Theorem delivered_keys_rainbow (now t_stamp t_check : Q) (event : KeyboardEvent)
    (h : KeyboardHandler) (r : list Q) (Htc : t_check < now + 200) :
  Forall (fun ki => ki_effect ki = "rainbow" /\ ki_timestamp ki = t_stamp /\
                    ki_code ki = code event /\
                    (ki_type ki <> "letter" -> ki_soundType ki = Some "chime"))
    (delivered (fst (fst (handleKeyDown now t_stamp t_check event h r)))).
Proof.
  apply Forall_forall. intros ki Hki. apply delivered_In in Hki.
  apply handleKeyDown_delivers in Hki. subst ki.
  pose proof (analyzeKey_rapid (S (keyPressCount h)) now event t_stamp t_check r
                ltac:(lia) ltac:(lra)) as (A & B & C & _ & _ & F).
  tauto.
Qed.

Definition key_space : KeyboardEvent := mkKeyboardEvent "Space" " " false false false false.
Definition kh_active : KeyboardHandler := mkKeyboardHandler true true true 4 1000 false.

Lemma delivered_keys_rainbow_witness :
  1600 < 1500 + 200 /\
  Forall (fun ki => ki_effect ki = "rainbow" /\ ki_timestamp ki = 1500 /\
                    ki_code ki = code key_space /\
                    (ki_type ki <> "letter" -> ki_soundType ki = Some "chime"))
    (delivered (fst (fst (handleKeyDown 1500 1500 1600 key_space kh_active [])))) /\
  delivered (fst (fst (handleKeyDown 1500 1500 1600 key_space kh_active []))) <> [].
Proof.
  split; [|split].
  - lra.
  - apply (delivered_keys_rainbow 1500 1500 1600 key_space kh_active []). lra.
  - vm_compute. discriminate.
Defined.

(** [X15] A delivered letter key (event.code 'Key...') carries the
    lowercased event.key as its character and, for draws of Math.random()
    in [0, 1), a sound type among 'chime', 'bell', 'whistle' when that
    character is a vowel (or contained in 'aeiou') and among 'note', 'toy',
    'bubble' otherwise. *)
Theorem delivered_letter_sound (now t_stamp t_check : Q) (event : KeyboardEvent)
    (h : KeyboardHandler) (r : list Q)
    (Hkey : String.prefix "Key" (code event) = true) (Hr : draws r) :
  Forall (fun ki =>
      ki_type ki = "letter" /\ ki_character ki = Some (Shapes.toLowerCase (key event)) /\
      In (ki_soundType ki)
         (map Some (if isVowel (Shapes.toLowerCase (key event))
                    then ["chime"; "bell"; "whistle"] else ["note"; "toy"; "bubble"])))
    (delivered (fst (fst (handleKeyDown now t_stamp t_check event h r)))).
Proof.
  apply Forall_forall. intros ki Hki. apply delivered_In in Hki.
  apply handleKeyDown_delivers in Hki. subst ki.
  exact (analyzeKey_letter (S (keyPressCount h)) now event t_stamp t_check r Hkey Hr).
Qed.

Definition key_E : KeyboardEvent := mkKeyboardEvent "KeyE" "E" false false false false.

Lemma delivered_letter_sound_witness :
  String.prefix "Key" (code key_E) = true /\ draws [1 # 3; 9 # 10] /\
  Forall (fun ki =>
      ki_type ki = "letter" /\ ki_character ki = Some (Shapes.toLowerCase (key key_E)) /\
      In (ki_soundType ki)
         (map Some (if isVowel (Shapes.toLowerCase (key key_E))
                    then ["chime"; "bell"; "whistle"] else ["note"; "toy"; "bubble"])))
    (delivered (fst (fst (handleKeyDown 1500 1500 1500 key_E kh_active [1 # 3; 9 # 10])))).
Proof.
  assert (D : draws [1 # 3; 9 # 10])
    by (unfold draws; repeat apply Forall_cons; try apply Forall_nil; split; lra).
  split; [reflexivity|]. split; [exact D|].
  apply (delivered_letter_sound 1500 1500 1500 key_E kh_active [1 # 3; 9 # 10]);
    [reflexivity | exact D].
Defined.
End KeyboardProps.

Module KeySoundsProps.
Import Utils Keyboard KeySounds KeyboardProps.
Local Open Scope string_scope.

Section WithBackends.
Variable web fb : string -> Q -> Sounds.SoundManager -> Sounds.outcome Sounds.SoundManager.
Variable pI : option string -> option Z.

Lemma key_sound_throws (ki : KeyInfo) (n0 : option Q) (r : list Q) :
  snd (fst (key_sound pI ki n0 r)) = Sounds.Throws ->
  ki_type ki = "letter" /\ ki_character ki = None.
Proof.
  unfold key_sound.
  destruct (String.eqb (ki_type ki) "letter") eqn:L.
  - apply String.eqb_eq in L. destruct (ki_character ki); cbn; [discriminate|auto].
  - repeat match goal with |- context [if ?b then _ else _] => destruct b end;
      cbn; try discriminate.
    unfold bind, ret. destruct (getRandomNote r). cbn. discriminate.
Qed.

Lemma key_sound_letter (ki : KeyInfo) (n0 : option Q) (r : list Q) (c : string) :
  ki_type ki = "letter" -> ki_character ki = Some c ->
  snd (fst (key_sound pI ki n0 r)) = Sounds.Ok (getNoteForLetter c).
Proof.
  intros L C. unfold key_sound. rewrite L, C. reflexivity.
Qed.

(** A key with the effect 'rainbow' is played as a 'chime', whatever its
    type; a letter with the note of its character. *)
Lemma playKeySound_rainbow (ki : KeyInfo) (m : Sounds.SoundManager) (r : list Q) :
  ki_effect ki = "rainbow" -> (ki_type ki = "letter" -> ki_character ki <> None) ->
  exists f, fst (playKeySound web fb pI ki m r) = Sounds.playSound web fb "chime" f m /\
    (forall c, ki_type ki = "letter" -> ki_character ki = Some c -> f = or440 (getNoteForLetter c)).
Proof.
  intros He Hl. unfold playKeySound.
  destruct (Sounds.isEnabled m) eqn:En; cbn [negb].
  - unfold bind, ret. destruct (getRandomNote r) as [n0 r1].
    destruct (key_sound pI ki n0 r1) as [[st no] r2] eqn:KS.
    destruct no as [note|].
    + exists (or440 note). split.
      * cbn. unfold effect_sound. rewrite He. reflexivity.
      * intros c L C. pose proof (key_sound_letter ki n0 r1 c L C) as E.
        rewrite KS in E. cbn in E. injection E as ->. reflexivity.
    + pose proof (key_sound_throws ki n0 r1) as T. rewrite KS in T.
      destruct (T eq_refl) as [L C]. exfalso. exact (Hl L C).
  - exists (or440 (match ki_character ki with Some c => getNoteForLetter c | None => None end)).
    split.
    + unfold Sounds.playSound. rewrite En. reflexivity.
    + intros c _ C. rewrite C. reflexivity.
Qed.

(** [X16] A key that handleKeyDown delivers (when the second
    performance.now() reading is less than 200 ms after the first) is
    played by playKeySound as playSound('chime', f): its 'rainbow' effect
    overrides the 'note', 'explosion', 'fireworks' and 'toy' sound types of
    the type switch; for a letter key f is the note getNoteForLetter gives
    for the lowercased event.key, or 440 when that is undefined. *)
Theorem delivered_keys_chime (now ts tc : Q) (event : KeyboardEvent) (h : KeyboardHandler)
    (r : list Q) (m : Sounds.SoundManager) (r' : list Q) (ki : KeyInfo)
    (Htc : tc < now + 200)
    (Hki : In ki (delivered (fst (fst (handleKeyDown now ts tc event h r))))) :
  exists f, fst (playKeySound web fb pI ki m r') = Sounds.playSound web fb "chime" f m /\
    (String.prefix "Key" (code event) = true ->
     f = or440 (getNoteForLetter (Shapes.toLowerCase (key event)))).
Proof.
  apply delivered_In, handleKeyDown_delivers in Hki. subst ki.
  pose proof (analyzeKey_rapid (S (keyPressCount h)) now event ts tc r
                ltac:(lia) ltac:(lra)) as (A & _ & _ & P & C & _).
  destruct (playKeySound_rainbow (fst (analyzeKey (S (keyPressCount h)) now event ts tc r)) m r'
              A (fun L => ltac:(rewrite (C L); discriminate))) as [f [E F]].
  exists f. split; [exact E|].
  intros K. apply (F _ (proj1 P K) (C (proj1 P K))).
Qed.

End WithBackends.

Definition ki_E : KeyInfo := fst (analyzeKey 5 1500 key_E 1500 1600 [1 # 3; 9 # 10]).

Lemma delivered_keys_chime_witness :
  1600 < 1500 + 200 /\
  In ki_E (delivered (fst (fst (handleKeyDown 1500 1500 1600 key_E kh_active [1 # 3; 9 # 10])))) /\
  exists f, fst (playKeySound Sounds.start_signal Sounds.start_signal (fun _ => None) ki_E
                   Sounds.new_SoundManager [])
            = Sounds.playSound Sounds.start_signal Sounds.start_signal "chime" f
                Sounds.new_SoundManager /\
    (String.prefix "Key" (code key_E) = true ->
     f = or440 (getNoteForLetter (Shapes.toLowerCase (key key_E)))).
Proof.
  assert (I : In ki_E (delivered (fst (fst (handleKeyDown 1500 1500 1600 key_E kh_active
                                                 [1 # 3; 9 # 10])))))
    by (vm_compute; left; reflexivity).
  split; [lra|]. split; [exact I|].
  exact (delivered_keys_chime Sounds.start_signal Sounds.start_signal (fun _ => None)
           1500 1500 1600 key_E kh_active [1 # 3; 9 # 10] Sounds.new_SoundManager [] ki_E
           ltac:(lra) I).
Defined.

(** [X17] getNoteForLetter reads the first character of the lowercased
    letter: an ASCII letter of either case with alphabet index i (a = 0)
    gets the note number i mod 10 of MUSICAL_NOTES, so letters ten apart
    (a, k, u) share a note and every letter gets a pentatonic note. *)
Theorem getNoteForLetter_letters (a : Ascii.ascii) (s : string)
    (Ha : (97 <= Ascii.nat_of_ascii (Shapes.ascii_lower a) <= 122)%nat) :
  getNoteForLetter (String a s) =
    Some (snd (nth ((Ascii.nat_of_ascii (Shapes.ascii_lower a) - 97) mod 10) MUSICAL_NOTES ("", 0))).
Proof.
  unfold getNoteForLetter. cbn [Shapes.toLowerCase charCodeAt0]. clear s.
  destruct a as [[] [] [] [] [] [] [] []]; vm_compute in Ha; try lia; vm_compute; reflexivity.
Qed.

(** [X18] When the first character of the lowercased letter has a code
    below that of 'a' (a digit, a space, most punctuation), the index
    code - 97 is negative and JS's % keeps its sign: getNoteForLetter is
    undefined, except when the index is a multiple of 10 (as for '9', '/'
    or '%'), where -0 reads NOTE_NAMES[0] and the note is C4. On the empty
    string (charCodeAt gives NaN) it is undefined. *)
Theorem getNoteForLetter_below_a (c : Ascii.ascii) (s : string)
    (Hc : (Ascii.nat_of_ascii (Shapes.ascii_lower c) < 97)%nat) :
  getNoteForLetter (String c s) =
    (if Nat.eqb ((97 - Ascii.nat_of_ascii (Shapes.ascii_lower c)) mod 10) 0
     then Some (26163 # 100) else None) /\
  getNoteForLetter "" = None.
Proof.
  split; [|reflexivity].
  unfold getNoteForLetter. cbn [Shapes.toLowerCase charCodeAt0]. clear s.
  destruct c as [[] [] [] [] [] [] [] []]; vm_compute in Hc; try lia; vm_compute; reflexivity.
Qed.

Lemma getNoteForLetter_letters_witness :
  (97 <= Ascii.nat_of_ascii (Shapes.ascii_lower (Ascii.ascii_of_nat 69)) <= 122)%nat /\
  getNoteForLetter "E" = Some (snd (nth ((Ascii.nat_of_ascii (Shapes.ascii_lower (Ascii.ascii_of_nat 69)) - 97) mod 10)
                                        MUSICAL_NOTES ("", 0))).
Proof.
  split; [vm_compute; lia|].
  apply (getNoteForLetter_letters (Ascii.ascii_of_nat 69) ""). vm_compute. lia.
Defined.

Lemma getNoteForLetter_below_a_witness :
  (Ascii.nat_of_ascii (Shapes.ascii_lower (Ascii.ascii_of_nat 57)) < 97)%nat /\
  getNoteForLetter "9" =
    (if Nat.eqb ((97 - Ascii.nat_of_ascii (Shapes.ascii_lower (Ascii.ascii_of_nat 57))) mod 10) 0
     then Some (26163 # 100) else None) /\
  getNoteForLetter "" = None.
Proof.
  split; [vm_compute; lia|].
  apply (getNoteForLetter_below_a (Ascii.ascii_of_nat 57) ""). vm_compute. lia.
Defined.

End KeySoundsProps.

Module BurstProps.
Import Utils Particles Bursts.
Local Open Scope string_scope.

Lemma get_heap_other {A} (p : ObjectPool A) (j : nat) :
  j <> fst (get p) -> heap (snd (get p)) j = heap p j.
Proof.
  unfold get. destruct (rev (pool p)) as [|o rest]; cbn; [|reflexivity].
  intros H. unfold upd. rewrite (proj2 (Nat.eqb_neq _ _) H). reflexivity.
Qed.

Section WithMath.
Variable Math_PI : Q.
Variable Math_sin Math_cos : Q -> Q.
Variable getRandomColors : Z -> Rand (list string).
Variables x0 y0 : Q.

(** What every particle of a burst is: an active circle at (x0, y0). *)
Definition burst_particle (p : Particle) : Prop :=
  type p = "circle" /\ x p = x0 /\ y p = y0 /\ isActive p = true.

Lemma init_no_options (old : Particle) (r : list Q) :
  burst_particle (fst (init Math_PI Math_sin Math_cos x0 y0 no_options old r)).
Proof.
  unfold init, randomBetween, bind, ret. cbv beta. cbn [no_options opt_isClickParticle opt_type].
  repeat match goal with
         | |- context [Math_random ?l] => destruct (Math_random l); cbv beta iota
         end.
  repeat split.
Qed.

Lemma burst_loop_spec (count : nat) (is : list nat) : forall s,
  let s' := snd (burst_loop Math_PI Math_sin Math_cos x0 y0 count is s) in
  (exists added, particles s' = app (particles s) added /\
     List.length added = Nat.min (List.length is) (100 - List.length (particles s)) /\
     Forall (fun o => burst_particle (heap (particlePool s') o)) added) /\
  (forall j, burst_particle (heap (particlePool s) j) ->
             burst_particle (heap (particlePool s') j)).
Proof.
  induction is as [|i rest IH]; intros s; cbn [burst_loop].
  - split; [exists []; rewrite app_nil_r; repeat split; cbn; auto | auto].
  - destruct (Nat.leb CONFIG_particles_maxActiveParticles (List.length (particles s))) eqn:Cap.
    { apply Nat.leb_le in Cap. unfold CONFIG_particles_maxActiveParticles in Cap.
      split; [|auto]. exists []. rewrite app_nil_r. split; [reflexivity|]. split; [|constructor].
      cbn [List.length]. replace (100 - List.length (particles s))%nat with 0%nat by lia.
      rewrite Nat.min_0_r. reflexivity. }
    apply Nat.leb_gt in Cap. unfold CONFIG_particles_maxActiveParticles in Cap.
    destruct (get (particlePool s)) as [o p1] eqn:G.
    pose proof (init_no_options (heap p1 o) (rng s)) as Hv.
    unfold string_options.
    destruct (init Math_PI Math_sin Math_cos x0 y0 no_options (heap p1 o) (rng s)) as [v r1].
    cbn [fst] in Hv.
    destruct (randomBetween 3 8 r1) as [speed r2].
    destruct (randomBetween (8#10) (3#2) r2) as [m r3].
    destruct (randomBetween 0 360 r3) as [h r4].
    set (v' := set_burst v _ _ _ _).
    set (s1 := with_particles s (particles s ++ [o]) (set_obj o v' p1) r4).
    assert (Hgood : burst_particle v') by exact Hv.
    assert (Hs1 : forall j, burst_particle (heap (particlePool s) j) ->
                            burst_particle (heap (particlePool s1) j)).
    { intros j Hj. cbn. unfold upd. destruct (Nat.eqb j o) eqn:E; [exact Hgood|].
      apply Nat.eqb_neq in E.
      pose proof (get_heap_other (particlePool s) j) as Hh. rewrite G in Hh.
      cbn in Hh. rewrite Hh by exact E. exact Hj. }
    destruct (IH s1) as [[added [Hp [Hl Hf]]] Hk].
    split.
    + exists (o :: added). split; [|split].
      * rewrite Hp. cbn. rewrite <- app_assoc. reflexivity.
      * cbn [List.length]. rewrite Hl. unfold s1. cbn [particles with_particles].
        rewrite length_app. cbn [List.length]. rewrite Nat.add_1_r.
        replace (100 - List.length (particles s))%nat
          with (S (100 - S (List.length (particles s)))) by lia.
        reflexivity.
      * constructor; [|exact Hf]. apply Hk. cbn. unfold upd. rewrite Nat.eqb_refl. exact Hgood.
    + intros j Hj. apply Hk, Hs1, Hj.
Qed.

(** [X19] createBurst(x, y, count) never evicts a particle: the live array
    keeps every particle it had, in place, and the new ones are appended
    after them until the cap of 100 is reached (the loop breaks there), so
    from n live particles it grows to max(n, min(100, n + count)). *)
Theorem createBurst_no_eviction (count : nat) (s : ParticleSystem) :
  let s' := snd (createBurst Math_PI Math_sin Math_cos getRandomColors x0 y0 count s) in
  exists added, particles s' = app (particles s) added /\
    List.length (particles s') =
      Nat.max (List.length (particles s)) (Nat.min 100 (List.length (particles s) + count)).
Proof.
  cbv zeta. unfold createBurst.
  destruct (getRandomColors 3%Z (rng s)) as [colors r1].
  destruct (burst_loop_spec count (seq 0 count) (with_particles s (particles s) (particlePool s) r1))
    as [[added [Hp [Hl _]]] _].
  cbn [particles with_particles] in Hp, Hl. rewrite length_seq in Hl.
  exists added. split; [exact Hp|].
  rewrite Hp, length_app, Hl. lia.
Qed.

(** [X20] Every particle createBurst(x, y, count) adds is an active
    'circle' at (x, y): init receives the string 'star' or 'circle' as its
    options object, whose type property is undefined, so the type falls
    back to 'circle' even for the particles the loop meant as stars. *)
Theorem createBurst_all_circles (count : nat) (s : ParticleSystem) :
  let s' := snd (createBurst Math_PI Math_sin Math_cos getRandomColors x0 y0 count s) in
  exists added, particles s' = app (particles s) added /\
    Forall (fun o => burst_particle (heap (particlePool s') o)) added.
Proof.
  cbv zeta. unfold createBurst.
  destruct (getRandomColors 3%Z (rng s)) as [colors r1].
  destruct (burst_loop_spec count (seq 0 count) (with_particles s (particles s) (particlePool s) r1))
    as [[added [Hp [_ Hf]]] _].
  exists added. split; [exact Hp | exact Hf].
Qed.

End WithMath.

End BurstProps.

Module KeyDisplaysProps.
Import Utils Keyboard KeyDisplays.
Local Open Scope string_scope.

(** The display displayKeyFeedback(keyInfo, shape) pushes at time [t]. *)
Definition new_display (t : Q) (ki : KeyInfo) (shape : Shapes.Shape) : KeyDisplay :=
  mkKeyDisplay (keyText ki) (Shapes.x shape) (Shapes.y shape - 30) 1 0 (12#10) t 1500
    (if String.eqb (Shapes.color shape) "" then "#FFFFFF" else Shapes.color shape).

Definition feedback (it : Q * KeyInfo * Shapes.Shape) : kd_event :=
  let '(t, ki, shape) := it in Feedback t ki shape.
Definition display_of (it : Q * KeyInfo * Shapes.Shape) : KeyDisplay :=
  let '(t, ki, shape) := it in new_display t ki shape.

(** A display as the code creates and animates it. *)
Definition kd_ok (d : KeyDisplay) : Prop :=
  lifespan d = 1500 /\ maxScale d = 12#10 /\ 0 < kd_alpha d /\ kd_alpha d <= 1.

Definition kds_ok (kds : option (list KeyDisplay)) : Prop :=
  match kds with None => True | Some l => (List.length l <= 10)%nat /\ Forall kd_ok l end.

Lemma progress_expired (now c : Q) :
  Qle_bool 1 ((now - c) / 1500) = negb (Qltb (now - c) 1500).
Proof.
  unfold Qltb. rewrite Bool.negb_involutive.
  destruct (Qle_bool 1500 (now - c)) eqn:E; qbool.
  - apply Qle_bool_iff. apply Qle_shift_div_l; [reflexivity|]. lra.
  - destruct (Qle_bool 1 ((now - c) / 1500)) eqn:F; qbool; [|reflexivity].
    assert (Eq : (now - c) / 1500 * 1500 == now - c) by field.
    apply (Qmult_le_compat_r _ _ 1500) in F; [|lra]. rewrite Eq in F. lra.
Qed.

Lemma render_step_ok (now : Q) (d d1 : KeyDisplay) :
  kd_ok d -> render_step now d = Some d1 -> kd_ok d1.
Proof.
  intros (L & M & A0 & A1). unfold render_step. rewrite L.
  destruct (Qle_bool 1 ((now - createdAt d) / 1500)) eqn:E; [discriminate|].
  qbool. set (p := (now - createdAt d) / 1500) in *.
  destruct (Qltb p (2#10)).
  { intros H. injection H as <-. repeat split; cbn; assumption. }
  destruct (Qltb (8#10) p) eqn:F.
  - intros H. injection H as <-. unfold Qltb in F.
    destruct (Qle_bool p (8#10)) eqn:G; [discriminate|]. qbool.
    assert (Fp : (p - (8#10)) / (2#10) == (p - (8#10)) * 5) by field.
    repeat split; cbn; try assumption; rewrite Fp; lra.
  - intros H. injection H as <-. repeat split; cbn; assumption.
Qed.

Lemma filter_step_ok (now : Q) (l : list KeyDisplay) :
  Forall kd_ok l -> Forall kd_ok (filter_step now l) /\
  (List.length (filter_step now l) <= List.length l)%nat.
Proof.
  induction l as [|d l IH]; intros H; cbn; [split; [constructor | lia]|].
  inversion H as [|? ? Hd Hl]; subst. destruct (IH Hl) as [F Le].
  destruct (render_step now d) as [d1|] eqn:E.
  - split; [constructor; [exact (render_step_ok now d d1 Hd E) | exact F] | cbn; lia].
  - split; [exact F | lia].
Qed.

Lemma kd_step_ok (e : kd_event) (kds : option (list KeyDisplay)) :
  kds_ok kds -> kds_ok (kd_step e kds).
Proof.
  intros H. destruct e as [t ki shape | t]; cbn.
  - unfold displayKeyFeedback.
    assert (H' : (List.length (match kds with Some l => l | None => [] end) <= 10)%nat /\
                 Forall kd_ok (match kds with Some l => l | None => [] end))
      by (destruct kds; [exact H | split; [cbn; lia | constructor]]).
    destruct H' as [Le F].
    set (l := match kds with Some l => l | None => [] end) in *.
    assert (F1 : Forall kd_ok (app l [new_display t ki shape])).
    { apply Forall_app. split; [exact F|]. constructor; [|constructor].
      repeat split; cbn; try reflexivity; lra. }
    change (kds_ok (Some (if Nat.ltb 10 (List.length (app l [new_display t ki shape]))
                          then tl (app l [new_display t ki shape])
                          else app l [new_display t ki shape]))).
    unfold kds_ok.
    destruct (Nat.ltb 10 (List.length (app l [new_display t ki shape]))) eqn:C.
    + split.
      * rewrite length_tl, length_app. cbn. lia.
      * destruct (app l [new_display t ki shape]) as [|d l'] eqn:El; [constructor|].
        inversion F1. assumption.
    + apply Nat.ltb_ge in C. split; [exact C | exact F1].
  - destruct kds as [[|d l]|]; cbn [renderKeyDisplays kds_ok]; try exact H.
    destruct H as [Le F]. destruct (filter_step_ok t (d :: l) F) as [F' Le'].
    split; [cbn [List.length] in Le, Le'; lia | exact F'].
Qed.

Lemma kd_run_ok (es : list kd_event) : forall kds, kds_ok kds -> kds_ok (kd_run es kds).
Proof.
  unfold kd_run. induction es as [|e es IH]; intros kds H; cbn [fold_left]; [exact H|].
  apply IH, kd_step_ok, H.
Qed.

(** [X21] From the start of the game (this.keyDisplays undefined), after
    any sequence of displayKeyFeedback and renderKeyDisplays calls,
    this.keyDisplays holds at most 10 displays, each with lifespan 1500,
    maxScale 1.2 and an alpha in (0, 1]. *)
Theorem keyDisplays_bounded (es : list kd_event) : kds_ok (kd_run es None).
Proof. apply kd_run_ok. exact I. Qed.

Lemma feedback_step (it : Q * KeyInfo * Shapes.Shape) (l : list KeyDisplay) :
  kd_step (feedback it) (Some l) =
  Some (if Nat.ltb 10 (List.length (app l [display_of it])) then tl (app l [display_of it])
        else app l [display_of it]).
Proof. destruct it as [[t ki] shape]. reflexivity. Qed.

Lemma trim_skipn (L : list KeyDisplay) :
  (List.length L <= 11)%nat ->
  (if Nat.ltb 10 (List.length L) then tl L else L) = skipn (List.length L - 10) L.
Proof.
  intros H. destruct (Nat.ltb 10 (List.length L)) eqn:C.
  - apply Nat.ltb_lt in C. replace (List.length L - 10)%nat with 1%nat by lia.
    destruct L; reflexivity.
  - apply Nat.ltb_ge in C. replace (List.length L - 10)%nat with 0%nat by lia. reflexivity.
Qed.

Lemma feedback_run (items : list (Q * KeyInfo * Shapes.Shape)) : forall l,
  (List.length l <= 10)%nat ->
  kd_run (map feedback items) (Some l) =
  Some (skipn (List.length (app l (map display_of items)) - 10) (app l (map display_of items))).
Proof.
  unfold kd_run. induction items as [|it rest IH]; intros l Hl; cbn [map fold_left].
  - rewrite app_nil_r. replace (List.length l - 10)%nat with 0%nat by lia. reflexivity.
  - rewrite feedback_step, trim_skipn by (rewrite length_app; cbn; lia).
    set (L := app l [display_of it]).
    assert (HL : List.length L = S (List.length l)) by (unfold L; rewrite length_app; cbn; lia).
    rewrite IH by (rewrite length_skipn; lia).
    assert (SA : app (skipn (List.length L - 10) L) (map display_of rest) =
                 skipn (List.length L - 10) (app L (map display_of rest))).
    { rewrite skipn_app. replace (List.length L - 10 - List.length L)%nat with 0%nat by lia.
      reflexivity. }
    rewrite SA, skipn_skipn.
    unfold L. rewrite <- app_assoc. cbn [app].
    f_equal. f_equal. rewrite !length_app, length_skipn, !length_app. cbn [List.length].
    lia.
Qed.

(** [X22] While no frame is rendered, a sequence of displayKeyFeedback
    calls from the start of the game leaves exactly the displays of the
    last 10 calls in this.keyDisplays, oldest first. *)
Theorem feedback_keeps_last_10 (items : list (Q * KeyInfo * Shapes.Shape)) (Hne : items <> []) :
  kd_run (map feedback items) None =
  Some (skipn (List.length items - 10) (map display_of items)).
Proof.
  destruct items as [|it rest]; [congruence|].
  assert (E : kd_run (map feedback (it :: rest)) None = kd_run (map feedback (it :: rest)) (Some [])).
  { unfold kd_run. cbn [map fold_left]. destruct it as [[t ki] shape]. reflexivity. }
  rewrite E, feedback_run by (cbn; lia). cbn [app]. rewrite length_map. reflexivity.
Qed.

(** [X23] Given displays with lifespan 1500 (as displayKeyFeedback creates
    them), renderKeyDisplays at time now keeps, in order, exactly the
    displays with now - createdAt < 1500, and it keeps their text and
    creation time. *)
Theorem render_keeps_young (now : Q) (l : list KeyDisplay)
    (Hl : Forall (fun d => lifespan d = 1500) l) :
  option_map (map (fun d => (text d, createdAt d))) (renderKeyDisplays now (Some l)) =
  Some (map (fun d => (text d, createdAt d)) (filter (fun d => Qltb (now - createdAt d) 1500) l)).
Proof.
  assert (G : map (fun d => (text d, createdAt d)) (filter_step now l) =
              map (fun d => (text d, createdAt d)) (filter (fun d => Qltb (now - createdAt d) 1500) l)).
  { induction l as [|d l IH]; [reflexivity|].
    inversion Hl as [|? ? Hd Hl']; subst. cbn [filter_step filter].
    unfold render_step. rewrite Hd, progress_expired.
    destruct (Qltb (now - createdAt d) 1500); cbn [negb]; [|exact (IH Hl')].
    cbn [map]. rewrite (IH Hl').
    destruct (Qltb ((now - createdAt d) / 1500) (2#10));
      [|destruct (Qltb (8#10) ((now - createdAt d) / 1500))]; reflexivity. }
  destruct l as [|d l']; [reflexivity|]. cbn [renderKeyDisplays option_map]. rewrite G. reflexivity.
Qed.

Definition shape0 : Shapes.Shape :=
  Shapes.mkShape 100 200 40 50 "" None 0 0 0 3000 0 true "normal" 0 0 0 [].
Definition ki_a : KeyInfo := mkKeyInfo "KeyA" "a" "letter" "rainbow" 0 (Some "a") (Some "chime") None.
Definition presses12 : list (Q * KeyInfo * Shapes.Shape) :=
  map (fun k => (inject_Z (Z.of_nat k), ki_a, shape0)) (seq 0 12).

Lemma feedback_keeps_last_10_witness :
  presses12 <> [] /\
  kd_run (map feedback presses12) None =
  Some (skipn (List.length presses12 - 10) (map display_of presses12)).
Proof.
  assert (H : presses12 <> []) by (vm_compute; discriminate).
  split; [exact H | exact (feedback_keeps_last_10 presses12 H)].
Defined.

Definition displays2 : list KeyDisplay :=
  [mkKeyDisplay "A" 0 0 1 0 (12#10) 0 1500 "#FFFFFF";
   mkKeyDisplay "B" 0 0 1 0 (12#10) 1000 1500 "#FFFFFF"].

Lemma render_keeps_young_witness :
  Forall (fun d => lifespan d = 1500) displays2 /\
  option_map (map (fun d => (text d, createdAt d))) (renderKeyDisplays 2000 (Some displays2)) =
  Some (map (fun d => (text d, createdAt d))
          (filter (fun d => Qltb (2000 - createdAt d) 1500) displays2)).
Proof.
  assert (H : Forall (fun d => lifespan d = 1500) displays2) by (repeat constructor).
  split; [exact H | exact (render_keeps_young 2000 displays2 H)].
Defined.

End KeyDisplaysProps.

Module ParticleBoundsProps.
Import Utils Particles.

Lemma easeOut_unit (t : Q) : 0 <= t <= 1 -> 0 <= easeOut t <= 1.
Proof. intros H. unfold easeOut. pose proof (UtilsProps.cube_unit (1 - t) ltac:(lra)). lra. Qed.

Lemma div_unit (a b : Q) : 0 < b -> a <= b -> Math_max 0 (a / b) <= 1.
Proof.
  intros Hb Hab. unfold Math_max. destruct (Qle_bool (a / b) 0); [lra|].
  apply Qle_shift_div_r; [exact Hb | lra].
Qed.

Lemma scale_unit (m t : Q) : 0 <= m -> 0 <= t <= 1 -> 0 <= m * t <= m.
Proof.
  intros Hm Ht. split; [apply Qmult_le_0_compat; lra|].
  assert (0 <= m * (1 - t)) by (apply Qmult_le_0_compat; lra). lra.
Qed.

Lemma max0_nonneg (a : Q) : 0 <= Math_max 0 a.
Proof. unfold Math_max. destruct (Qle_bool a 0) eqn:E; qbool; lra. Qed.

(** [X24] One update(deltaTime) step of an active particle with
    deltaTime >= 0, maxLife > 0, life <= maxLife and maxSize >= 0 keeps
    its size in [0, maxSize] and its alpha in [0, 1], keeps maxLife and
    maxSize and life <= maxLife (so the bounds hold after every later
    step), and reports it alive exactly as it leaves isActive; a particle
    reported alive has life > 0 and size > 0. *)
Theorem particle_update_bounds (dt : Q) (p : Particle) (Hact : isActive p = true)
    (Hdt : 0 <= dt) (Hml : 0 < maxLife p) (Hl : life p <= maxLife p) (Hms : 0 <= maxSize p) :
  let (p', alive) := update dt p in
  0 <= size p' <= maxSize p /\ 0 <= alpha p' <= 1 /\
  maxLife p' = maxLife p /\ maxSize p' = maxSize p /\ life p' <= maxLife p /\
  isActive p' = alive /\ (alive = true -> 0 < life p' /\ 0 < size p').
Proof.
  unfold update. rewrite Hact. cbn [negb].
  pose proof (div_unit (life p - dt) (maxLife p) Hml ltac:(lra)) as A1.
  pose proof (max0_nonneg ((life p - dt) / maxLife p)) as A0.
  set (a := Math_max 0 ((life p - dt) / maxLife p)) in *.
  match goal with |- context [if Qle_bool (life p - dt) 0 || Qle_bool ?s 0 then _ else _] =>
    set (size1 := s) end.
  assert (S1 : 0 <= size1 <= maxSize p).
  { unfold size1. unfold Qltb.
    destruct (Qle_bool (15 # 100) (1 - a)) eqn:E1; cbn [negb]; qbool.
    - destruct (Qle_bool (1 - a) (85 # 100)) eqn:E2; cbn [negb]; qbool; [lra|].
      assert (Hs : 0 <= (1 - a - (85 # 100)) / (15 # 100) <= 1).
      { split; [apply Qle_shift_div_l; [reflexivity | lra] | apply Qle_shift_div_r; [reflexivity | lra]]. }
      pose proof (easeOut_unit _ Hs) as He.
      apply scale_unit; [exact Hms | lra].
    - assert (Hs : 0 <= (1 - a) / (15 # 100) <= 1).
      { split; [apply Qle_shift_div_l; [reflexivity | lra] | apply Qle_shift_div_r; [reflexivity | lra]]. }
      apply scale_unit; [exact Hms | apply easeOut_unit, Hs]. }
  destruct (Qle_bool (life p - dt) 0) eqn:L; destruct (Qle_bool size1 0) eqn:Z;
    cbn; qbool; repeat split; try lra; try discriminate; reflexivity.
Qed.

Definition particle0 : Particle :=
  mkParticle 10 10 1 1 0 20 (Hex "#FF6B6B") 1 2000 2000 (2#100) (1#10) (98#100) true 0 70 60 0 0
    "circle".

Lemma particle_update_bounds_witness :
  isActive particle0 = true /\ 0 <= 16 /\ 0 < maxLife particle0 /\
  life particle0 <= maxLife particle0 /\ 0 <= maxSize particle0 /\
  let (p', alive) := update 16 particle0 in
  0 <= size p' <= maxSize particle0 /\ 0 <= alpha p' <= 1 /\
  maxLife p' = maxLife particle0 /\ maxSize p' = maxSize particle0 /\
  life p' <= maxLife particle0 /\
  isActive p' = alive /\ (alive = true -> 0 < life p' /\ 0 < size p').
Proof.
  assert (H1 : isActive particle0 = true) by reflexivity.
  assert (H2 : 0 <= maxSize particle0) by (cbn; lra).
  assert (H3 : 0 < maxLife particle0) by (cbn; lra).
  assert (H4 : life particle0 <= maxLife particle0) by (cbn; lra).
  split; [exact H1|]. split; [lra|]. split; [exact H3|]. split; [exact H4|]. split; [exact H2|].
  exact (particle_update_bounds 16 particle0 H1 ltac:(lra) H3 H4 H2).
Defined.

End ParticleBoundsProps.

Module MainKeysProps.
Import Utils Keyboard KeyboardProps MainKeys.
Local Open Scope string_scope.

Section WithBackends.
Variable Math_PI : Q.
Variable Math_sin Math_cos : Q -> Q.
Variable getRandomColors : Z -> Rand (list string).
Variable web fb : string -> Q -> Sounds.SoundManager -> Sounds.outcome Sounds.SoundManager.
Variable pI : option string -> option Z.

(** [X25] The game's handleKeyPress creates a particle burst only for the
    effects 'explosion' and 'fireworks'; since every key that the keyboard
    handler delivers carries the effect 'rainbow' (when the second clock
    reading is less than 200 ms after the first), processing a delivered
    key never changes the particle system. *)
Theorem delivered_keys_no_burst (now ts tc now' : Q) (event : KeyboardEvent)
    (h : KeyboardHandler) (r : list Q) (ki : KeyInfo) (g : Game)
    (Htc : tc < now + 200)
    (Hki : In ki (delivered (fst (fst (handleKeyDown now ts tc event h r))))) :
  match handleKeyPress Math_PI Math_sin Math_cos getRandomColors web fb pI now' ki g with
  | Sounds.Ok g' => particleSystem g' = particleSystem g
  | Sounds.Throws => True
  end.
Proof.
  apply delivered_In, handleKeyDown_delivers in Hki.
  pose proof (analyzeKey_rapid (S (keyPressCount h)) now event ts tc r
                ltac:(lia) ltac:(lra)) as (A & _).
  rewrite <- Hki in A. clear Hki.
  unfold handleKeyPress. destruct (negb (isRunning g)); [reflexivity|].
  destruct (Shapes.createShape Math_PI (shape_key_info ki) (shapeManager g)) as [o sm].
  destruct (KeySounds.playKeySound web fb pI ki (soundManager g) (sound_rng g)) as [[m|] r1];
    [|exact I].
  cbn [particleSystem]. rewrite A. reflexivity.
Qed.

End WithBackends.

Definition game0 : Game :=
  mkGame true (Shapes.new_ShapeManager 800 600 0 []) (Particles.new_ParticleSystem 800 600 0 [])
    Sounds.new_SoundManager None 0 0 0 [].

Lemma delivered_keys_no_burst_witness :
  1600 < 1500 + 200 /\
  In (fst (analyzeKey 5 1500 key_space 1500 1600 []))
     (delivered (fst (fst (handleKeyDown 1500 1500 1600 key_space kh_active [])))) /\
  match handleKeyPress 3 (fun q => q) (fun q => q) (fun _ r => ([], r))
          Sounds.start_signal Sounds.start_signal (fun _ => None) 1500
          (fst (analyzeKey 5 1500 key_space 1500 1600 [])) game0 with
  | Sounds.Ok g' => particleSystem g' = particleSystem game0
  | Sounds.Throws => True
  end.
Proof.
  assert (I : In (fst (analyzeKey 5 1500 key_space 1500 1600 []))
                 (delivered (fst (fst (handleKeyDown 1500 1500 1600 key_space kh_active [])))))
    by (vm_compute; left; reflexivity).
  split; [lra|]. split; [exact I|].
  exact (delivered_keys_no_burst 3 (fun q => q) (fun q => q) (fun _ r => ([], r))
           Sounds.start_signal Sounds.start_signal (fun _ => None)
           1500 1500 1600 1500 key_space kh_active [] _ game0 ltac:(lra) I).
Defined.

End MainKeysProps.
